(** * UDP traceroute: the hop engine of [main.go] and of its commented variant

    The program sends one empty UDP datagram per TTL value to port 33434 of
    the destination and listens on a raw ICMP connection for the answer of
    the hop at which the datagram expired.  It is a single [main] function
    whose only inputs are the command line and the answers of the operating
    system, so the embedding is a small state-and-exit monad over a process
    state that records, in order, every call the program makes and every
    line it prints.  The answers of the operating system are an oracle. *)

From Stdlib Require Import String Ascii ZArith List Bool Lia PeanoNat.
From Stdlib Require Import Strings.Byte DecimalString.
Import ListNotations.
Open Scope string_scope.
Open Scope list_scope.
Open Scope Z_scope.

(** ** Data *)

(** [net.IP].  The program only has addresses that
    [net.ResolveIPAddr("ip4", ...)] returned, which are IPv4 addresses: the
    four bytes of the address. *)
Definition IP := (byte * byte * byte * byte)%type.

(** A UDP sending connection ([net.PacketConn] wrapped in [ipv4.PacketConn]).
    Every successful [net.ListenPacket] call yields a new connection; it is
    named by the index of the call that created it. *)
Definition Sock := nat.

(** [icmp.Message]: the program reads [Type] only. *)
Record Message := mkMessage {
  Type_ : Z;
  Code : Z;
  Checksum : Z;
  Body : list byte
}.

Module ipv4.
Definition ICMPTypeEchoReply : Z := 0.
Definition ICMPTypeDestinationUnreachable : Z := 3.
Definition ICMPTypeEcho : Z := 8.
Definition ICMPTypeTimeExceeded : Z := 11.
Definition ICMPTypeParameterProblem : Z := 12.
Definition ICMPTypeExtendedEchoRequest : Z := 42.
Definition ICMPTypeExtendedEchoReply : Z := 43.
End ipv4.

Definition byteZ (b : byte) : Z := Z.of_N (Byte.to_N b).

(** The decoder of [golang.org/x/net/icmp], which is a dependency and not
    part of the repository.  The engine below takes the decoder as a
    parameter; this definition is the instance used where a statement needs
    concrete bytes.  It keeps what the library does with the fixed part of a
    message: fewer than four bytes are [errMessageTooShort]; the type is the
    first byte, the code the second, the checksum the next two; a type with
    a registered body parser needs a body of at least four more bytes.  The
    body is kept as raw bytes, extension objects are not decoded (so the
    additional rejections of an extended echo request are not modelled), and
    only protocol 1 (ICMPv4), the one the program passes, is covered. *)
Module icmp.
Definition parseFns (typ : Z) : bool :=
  (typ =? ipv4.ICMPTypeDestinationUnreachable)
  || (typ =? ipv4.ICMPTypeTimeExceeded)
  || (typ =? ipv4.ICMPTypeParameterProblem)
  || (typ =? ipv4.ICMPTypeEcho)
  || (typ =? ipv4.ICMPTypeEchoReply)
  || (typ =? ipv4.ICMPTypeExtendedEchoRequest)
  || (typ =? ipv4.ICMPTypeExtendedEchoReply).

Definition ParseMessage (proto : Z) (b : list byte) : option Message :=
  match b with
  | b0 :: b1 :: b2 :: b3 :: body =>
      if proto =? 1 then
        let typ := byteZ b0 in
        if parseFns typ && (length body <? 4)%nat then None
        else Some {| Type_ := typ;
                     Code := byteZ b1;
                     Checksum := 256 * byteZ b2 + byteZ b3;
                     Body := body |}
      else None
  | _ => None
  end.
End icmp.

(** What [icmpConn.ReadFrom] can return. *)
Inductive ReadResult :=
| ReadTimeout                                (* err is a net.Error with Timeout() *)
| ReadFailed                                 (* any other err *)
| ReadDatagram (dgram : list byte) (peerAddr : string).

(** The answers of the operating system.  The per-hop calls are answered by
    call index: the i-th call of an operation, counted from 0, gets the i-th
    answer. *)
Record OS := mkOS {
  ResolveIPAddr : string -> option IP;
  icmpListenPacket : bool;
  udpListenPacket : nat -> bool;
  SetTTL : nat -> bool;
  WriteTo : nat -> bool;
  ReadFrom : nat -> ReadResult
}.

(** The connections a deferred [Close] can be pending on. *)
Inductive Conn :=
| IcmpConn
| UdpConn (s : Sock).

(** Lines written to standard output, one constructor per print statement. *)
Inductive Output :=
| OutStart (target : string) (ip : IP)
| OutHop (ttl : Z)
| OutTimeout
| OutPeer (peerAddr : string)
| OutTimeExceeded
| OutDestinationUnreachable
| OutDone
| OutUnknown (typ : Z).

(** Messages of the [log] package: the first six go through [log.Fatalf],
    the last two through [log.Printf]. *)
Inductive LogMsg :=
| FatalUsage
| FatalResolve
| FatalListenICMP
| FatalSocket
| FatalSetTTL
| FatalSend
| LogReadFailed
| LogParseFailed.

Inductive Event :=
| EvPrint (o : Output)
| EvLog (m : LogMsg)
| EvListenICMP (ok : bool)
| EvListenUDP (r : option Sock)
| EvSetTTL (s : Sock) (ttl : Z) (ok : bool)
| EvWriteTo (s : Sock) (payload : list byte) (ip : IP) (port : Z) (ok : bool)
| EvSetReadDeadline (d : Z)
| EvReadFrom (r : ReadResult)
| EvClose (c : Conn)
| EvExit (code : Z).

(** The process: what it has done so far, the pending deferred calls (last
    registered first) and how many times each per-hop operation was called. *)
Record Proc := mkProc {
  trace : list Event;
  deferred : list Conn;
  n_listen : nat;
  n_setttl : nat;
  n_write : nat;
  n_read : nat
}.

Definition init : Proc := mkProc [] [] 0 0 0 0.

(** ** The monad: state, and exit of the process *)

Inductive Res (A : Type) :=
| Val (a : A)
| Exit (code : Z)
| OutOfFuel.
Arguments Val {A} a.
Arguments Exit {A} code.
Arguments OutOfFuel {A}.

Definition M (A : Type) := Proc -> Res A * Proc.

Definition ret {A} (a : A) : M A := fun st => (Val a, st).

Definition bind {A B} (m : M A) (k : A -> M B) : M B :=
  fun st =>
    match m st with
    | (Val a, st') => k a st'
    | (Exit c, st') => (Exit c, st')
    | (OutOfFuel, st') => (OutOfFuel, st')
    end.

Declare Scope go_scope.
Delimit Scope go_scope with go.
Notation "x <- c ;; k" := (bind c (fun x => k))
  (at level 100, c at next level, right associativity) : go_scope.
Notation "c ;; k" := (bind c (fun _ => k))
  (at level 100, right associativity) : go_scope.
Open Scope go_scope.

Definition emit (e : Event) (st : Proc) : Proc :=
  mkProc (trace st ++ [e]) (deferred st)
         (n_listen st) (n_setttl st) (n_write st) (n_read st).

Definition Print (o : Output) : M unit := fun st => (Val tt, emit (EvPrint o) st).

Definition Logf (m : LogMsg) : M unit := fun st => (Val tt, emit (EvLog m) st).

(** [log.Fatalf] writes the message and calls [os.Exit(1)]: the process ends
    there and the deferred calls do not run. *)
Definition Fatalf {A} (m : LogMsg) : M A :=
  fun st => (Exit 1, emit (EvExit 1) (emit (EvLog m) st)).

Definition defer (c : Conn) : M unit :=
  fun st => (Val tt, mkProc (trace st) (c :: deferred st)
                            (n_listen st) (n_setttl st) (n_write st) (n_read st)).

(** Returning from [main]: the deferred calls run, last registered first, and
    the process exits with status 0. *)
Definition return_from_main : M unit :=
  fun st => (Exit 0,
             mkProc (trace st ++ map EvClose (deferred st) ++ [EvExit 0]) []
                    (n_listen st) (n_setttl st) (n_write st) (n_read st)).

(** ** Reading a trace *)

(** A datagram that left the host: the connection it was written on, the
    hop limit that connection had at that moment ([None]: never set), the
    destination and the payload. *)
Record Datagram := mkDatagram {
  dg_sock : Sock;
  dg_hoplimit : option Z;
  dg_dst : IP;
  dg_port : Z;
  dg_payload : list byte
}.

(** The hop-limit option of the connections, last setting first. *)
Definition SockOpts := list (Sock * Z).

Fixpoint hoplimit (o : SockOpts) (s : Sock) : option Z :=
  match o with
  | [] => None
  | (s', ttl) :: o' => if Nat.eqb s s' then Some ttl else hoplimit o' s
  end.

(** The datagrams sent by the successful [WriteTo] calls of a trace, each
    with the hop limit in force on its connection. *)
Fixpoint sent_from (o : SockOpts) (tr : list Event) : list Datagram :=
  match tr with
  | [] => []
  | EvSetTTL s ttl true :: tr' => sent_from ((s, ttl) :: o) tr'
  | EvWriteTo s payload ip port true :: tr' =>
      mkDatagram s (hoplimit o s) ip port payload :: sent_from o tr'
  | _ :: tr' => sent_from o tr'
  end.

Definition sent (tr : list Event) : list Datagram := sent_from [] tr.

(** The socket options after a trace. *)
Fixpoint opts_after (o : SockOpts) (tr : list Event) : SockOpts :=
  match tr with
  | [] => o
  | EvSetTTL s ttl true :: tr' => opts_after ((s, ttl) :: o) tr'
  | _ :: tr' => opts_after o tr'
  end.

(** The hop numbers printed, in the order they were printed. *)
Fixpoint reported (tr : list Event) : list Z :=
  match tr with
  | [] => []
  | EvPrint (OutHop ttl) :: tr' => ttl :: reported tr'
  | _ :: tr' => reported tr'
  end.

(** How many times the process received on the ICMP connection. *)
Fixpoint receives (tr : list Event) : nat :=
  match tr with
  | [] => O
  | EvReadFrom _ :: tr' => S (receives tr')
  | _ :: tr' => receives tr'
  end.

(** [k; k+1; ...; k+n-1] *)
Definition zrange (k : Z) (n : nat) : list Z :=
  map (fun j => k + Z.of_nat j) (seq 0 n).

(** The probe of a hop: an empty datagram to port 33434 with hop limit [ttl]. *)
Definition probe (s : Sock) (ttl : Z) (destIP : IP) : Datagram :=
  mkDatagram s (Some ttl) destIP 33434 [].

(** The reply kinds of the specification, as the [switch] on
    [icmpMessage.Type] tells them apart. *)
Inductive Kind :=
| HopLimitExceeded
| PortUnreachable
| Other (typ : Z).

Definition kind_of (m : Message) : Kind :=
  if Type_ m =? ipv4.ICMPTypeTimeExceeded then HopLimitExceeded
  else if Type_ m =? ipv4.ICMPTypeDestinationUnreachable then PortUnreachable
  else Other (Type_ m).

(** What the specification says of a decode failure: after the failure is
    logged the process receives again, before anything else. *)
Definition retries_receive (tr : list Event) : Prop :=
  forall pre post,
    tr = pre ++ EvLog LogParseFailed :: post ->
    exists r post', post = EvReadFrom r :: post'.

(** ** The text of the printed lines *)

Definition itoa (z : Z) : string := NilZero.string_of_int (Z.to_int z).

Definition newline : string := String (ascii_of_nat 10) "".

Fixpoint spaces (n : nat) : string :=
  match n with
  | O => ""
  | S n' => String " " (spaces n')
  end.

(** [%2d] and [%-15s]; the strings padded here are ASCII, one byte per
    character. *)
Definition pad_left (w : nat) (s : string) : string :=
  (spaces (w - String.length s) ++ s)%string.
Definition pad_right (w : nat) (s : string) : string :=
  (s ++ spaces (w - String.length s))%string.

(** [net.IP.String()] of an IPv4 address: dotted decimal. *)
Definition IP_String (ip : IP) : string :=
  let '(a, b, c, d) := ip in
  (itoa (byteZ a) ++ "." ++ itoa (byteZ b) ++ "."
   ++ itoa (byteZ c) ++ "." ++ itoa (byteZ d))%string.

Definition render (o : Output) : string :=
  match o with
  | OutStart target ip =>
      ("开始 traceroute 到 " ++ target ++ " (" ++ IP_String ip ++ ")" ++ newline)%string
  | OutHop ttl => (pad_left 2 (itoa ttl) ++ " ")%string
  | OutTimeout => ("* * * Request timed out." ++ newline)%string
  | OutPeer peerAddr => (pad_right 15 peerAddr ++ " ")%string
  | OutTimeExceeded => ("(Time Exceeded)" ++ newline)%string
  | OutDestinationUnreachable => ("(Destination Unreachable)" ++ newline)%string
  | OutDone => ("Traceroute 完成!" ++ newline)%string
  | OutUnknown typ => ("(未知 ICMP 类型: " ++ itoa typ ++ ")" ++ newline)%string
  end.

Fixpoint stdout (tr : list Event) : string :=
  match tr with
  | [] => ""
  | EvPrint o :: tr' => (render o ++ stdout tr')%string
  | _ :: tr' => stdout tr'
  end.

(** ** The program

    [ParseMessage] is [icmp.ParseMessage] of the library; [os] answers the
    system calls. *)

Definition maxHops : Z := 30.
Definition Second : Z := 1000000000.
Definition timeout : Z := 2 * Second.
Definition destPort : Z := 33434.

(** [make([]byte, n)] *)
Definition make (n : nat) : list byte := repeat x00 n.

(** What a loop body tells the loop: go on with [ttl++] (the end of the body
    or [continue]), or [return] from [main]. *)
Inductive Ctl :=
| Next
| Return.

(** How the [for] loop ends when the process does not exit inside it. *)
Inductive LoopEnd :=
| Returned
| Exhausted.

Section Engine.

Variable ParseMessage : Z -> list byte -> option Message.
Variable os : OS.

(** [icmp.ListenPacket("ip4:icmp", "0.0.0.0")] *)
Definition icmp_ListenPacket : M bool :=
  fun st => let ok := icmpListenPacket os in
            (Val ok, emit (EvListenICMP ok) st).

(** [net.ListenPacket("udp4", "0.0.0.0:0")] *)
Definition net_ListenPacket : M (option Sock) :=
  fun st =>
    let i := n_listen st in
    let r := if udpListenPacket os i then Some i else None in
    (Val r, mkProc (trace st ++ [EvListenUDP r]) (deferred st)
                   (S i) (n_setttl st) (n_write st) (n_read st)).

(** [p.SetTTL(ttl)] *)
Definition p_SetTTL (p : Sock) (ttl : Z) : M bool :=
  fun st =>
    let i := n_setttl st in
    let ok := SetTTL os i in
    (Val ok, mkProc (trace st ++ [EvSetTTL p ttl ok]) (deferred st)
                    (n_listen st) (S i) (n_write st) (n_read st)).

(** [p.WriteTo(payload, nil, &net.UDPAddr{IP: ip, Port: port})] *)
Definition p_WriteTo (p : Sock) (payload : list byte) (ip : IP) (port : Z) : M bool :=
  fun st =>
    let i := n_write st in
    let ok := WriteTo os i in
    (Val ok, mkProc (trace st ++ [EvWriteTo p payload ip port ok]) (deferred st)
                    (n_listen st) (n_setttl st) (S i) (n_read st)).

(** [icmpConn.SetReadDeadline(time.Now().Add(d))]; its error is dropped. *)
Definition SetReadDeadline (d : Z) : M unit :=
  fun st => (Val tt, emit (EvSetReadDeadline d) st).

(** [icmpConn.ReadFrom(buf)]: on success the datagram, cut to the length of
    the buffer, overwrites the front of the buffer; the result is the
    number of bytes written, the sender and the buffer.  [None] is a
    timeout, [Some None] another error. *)
Definition icmpConn_ReadFrom (buf : list byte)
  : M (option (option (nat * string * list byte))) :=
  fun st =>
    let i := n_read st in
    let r := ReadFrom os i in
    let st' := mkProc (trace st ++ [EvReadFrom r]) (deferred st)
                      (n_listen st) (n_setttl st) (n_write st) (S i) in
    match r with
    | ReadTimeout => (Val None, st')
    | ReadFailed => (Val (Some None), st')
    | ReadDatagram dgram peerAddr =>
        let n := Nat.min (length dgram) (length buf) in
        (Val (Some (Some (n, peerAddr, firstn n dgram ++ skipn n buf))), st')
    end.

(** *** main.go, the loop body (lines 46 to 107) *)
Definition hop (destIP : IP) (ttl : Z) : M Ctl :=
  Print (OutHop ttl) ;;
  sendSocket <- net_ListenPacket ;;
  match sendSocket with
  | None => Fatalf FatalSocket
  | Some p =>
      ok <- p_SetTTL p ttl ;;
      if negb ok then Fatalf FatalSetTTL else
      defer (UdpConn p) ;;
      ok <- p_WriteTo p [] destIP destPort ;;
      if negb ok then Fatalf FatalSend else
      let replyBytes := make 1500 in
      SetReadDeadline timeout ;;
      r <- icmpConn_ReadFrom replyBytes ;;
      match r with
      | None => Print OutTimeout ;; ret Next
      | Some None => Logf LogReadFailed ;; ret Next
      | Some (Some (n, peerAddr, replyBytes)) =>
          match ParseMessage 1 (firstn n replyBytes) with
          | None => Logf LogParseFailed ;; ret Next
          | Some icmpMessage =>
              Print (OutPeer peerAddr) ;;
              if Type_ icmpMessage =? ipv4.ICMPTypeTimeExceeded then
                Print OutTimeExceeded ;; ret Next
              else if Type_ icmpMessage =? ipv4.ICMPTypeDestinationUnreachable then
                Print OutDestinationUnreachable ;;
                Print OutDone ;;
                ret Return
              else
                Print (OutUnknown (Type_ icmpMessage)) ;; ret Next
          end
      end
  end.

(** [for ttl := 1; ttl <= maxHops; ttl++ { ... }], entered at [ttl]. *)
Fixpoint loop (fuel : nat) (destIP : IP) (ttl : Z) : M LoopEnd :=
  match fuel with
  | O => fun st => (OutOfFuel, st)
  | S fuel' =>
      if ttl <=? maxHops then
        c <- hop destIP ttl ;;
        match c with
        | Next => loop fuel' destIP (ttl + 1)
        | Return => ret Returned
        end
      else ret Exhausted
  end.

(** *** main.go, [main]; [args] is [os.Args] *)
Definition main (args : list string) : M LoopEnd :=
  if (length args <? 2)%nat then Fatalf FatalUsage else
  let target := nth 1 args "" in
  match ResolveIPAddr os target with
  | None => Fatalf FatalResolve
  | Some destIP =>
      Print (OutStart target destIP) ;;
      ok <- icmp_ListenPacket ;;
      if negb ok then Fatalf FatalListenICMP else
      defer IcmpConn ;;
      loop (S (Z.to_nat maxHops)) destIP 1
  end.

(** The process: [main], then what the runtime does when [main] returns. *)
Definition program (args : list string) : M unit :=
  main args ;; return_from_main.

(** *** The commented variant (src/unnamed/part_000), loop body.
    It differs from [hop] in one place: the count returned by [ReadFrom]
    is dropped and the whole buffer is handed to the decoder. *)
Definition student_hop (destIP : IP) (ttl : Z) : M Ctl :=
  Print (OutHop ttl) ;;
  sendSocket <- net_ListenPacket ;;
  match sendSocket with
  | None => Fatalf FatalSocket
  | Some p =>
      ok <- p_SetTTL p ttl ;;
      if negb ok then Fatalf FatalSetTTL else
      defer (UdpConn p) ;;
      ok <- p_WriteTo p [] destIP destPort ;;
      if negb ok then Fatalf FatalSend else
      let replyBytes := make 1500 in
      SetReadDeadline timeout ;;
      r <- icmpConn_ReadFrom replyBytes ;;
      match r with
      | None => Print OutTimeout ;; ret Next
      | Some None => Logf LogReadFailed ;; ret Next
      | Some (Some (_, peerAddr, replyBytes)) =>
          match ParseMessage 1 replyBytes with
          | None => Logf LogParseFailed ;; ret Next
          | Some icmpMessage =>
              Print (OutPeer peerAddr) ;;
              if Type_ icmpMessage =? ipv4.ICMPTypeTimeExceeded then
                Print OutTimeExceeded ;; ret Next
              else if Type_ icmpMessage =? ipv4.ICMPTypeDestinationUnreachable then
                Print OutDestinationUnreachable ;;
                Print OutDone ;;
                ret Return
              else
                Print (OutUnknown (Type_ icmpMessage)) ;; ret Next
          end
      end
  end.

Fixpoint student_loop (fuel : nat) (destIP : IP) (ttl : Z) : M LoopEnd :=
  match fuel with
  | O => fun st => (OutOfFuel, st)
  | S fuel' =>
      if ttl <=? maxHops then
        c <- student_hop destIP ttl ;;
        match c with
        | Next => student_loop fuel' destIP (ttl + 1)
        | Return => ret Returned
        end
      else ret Exhausted
  end.

Definition student_main (args : list string) : M LoopEnd :=
  if (length args <? 2)%nat then Fatalf FatalUsage else
  let target := nth 1 args "" in
  match ResolveIPAddr os target with
  | None => Fatalf FatalResolve
  | Some destIP =>
      Print (OutStart target destIP) ;;
      ok <- icmp_ListenPacket ;;
      if negb ok then Fatalf FatalListenICMP else
      defer IcmpConn ;;
      student_loop (S (Z.to_nat maxHops)) destIP 1
  end.

Definition student_program (args : list string) : M unit :=
  student_main args ;; return_from_main.

(** *** One iteration, case by case

    [after st evs opened l s w r] is the process [st] once it has done
    [evs], registered the deferred closing of [opened] and made [l], [s],
    [w] and [r] more calls of the four per-hop operations. *)
Definition after (st : Proc) (evs : list Event) (opened : list Conn)
           (l s w r : nat) : Proc :=
  mkProc (trace st ++ evs) (opened ++ deferred st)
         (l + n_listen st) (s + n_setttl st) (w + n_write st) (r + n_read st).

(** The sending half of an iteration when every call succeeds. *)
Definition sending (destIP : IP) (ttl : Z) (p : Sock) : list Event :=
  [EvPrint (OutHop ttl); EvListenUDP (Some p); EvSetTTL p ttl true;
   EvWriteTo p [] destIP destPort true; EvSetReadDeadline timeout].

(** The operating system lets the next probe out. *)
Definition can_send (st : Proc) : Prop :=
  udpListenPacket os (n_listen st) = true
  /\ SetTTL os (n_setttl st) = true
  /\ WriteTo os (n_write st) = true.

(** The next reply is a datagram from [peerAddr] that decodes to [m]. *)
Definition next_reply (st : Proc) (dgram : list byte) (peerAddr : string)
           (m : Message) : Prop :=
  ReadFrom os (n_read st) = ReadDatagram dgram peerAddr
  /\ ParseMessage 1 (firstn 1500 dgram) = Some m.

(** The nine ways through the body of the loop. *)
Inductive hop_spec (destIP : IP) (ttl : Z) (st : Proc) : Res Ctl * Proc -> Prop :=
| hop_no_socket :
    udpListenPacket os (n_listen st) = false ->
    hop_spec destIP ttl st
      (Exit 1,
       after st [EvPrint (OutHop ttl); EvListenUDP None;
                 EvLog FatalSocket; EvExit 1] [] 1 0 0 0)
| hop_no_ttl :
    udpListenPacket os (n_listen st) = true ->
    SetTTL os (n_setttl st) = false ->
    hop_spec destIP ttl st
      (Exit 1,
       after st [EvPrint (OutHop ttl); EvListenUDP (Some (n_listen st));
                 EvSetTTL (n_listen st) ttl false;
                 EvLog FatalSetTTL; EvExit 1] [] 1 1 0 0)
| hop_no_send :
    udpListenPacket os (n_listen st) = true ->
    SetTTL os (n_setttl st) = true ->
    WriteTo os (n_write st) = false ->
    hop_spec destIP ttl st
      (Exit 1,
       after st [EvPrint (OutHop ttl); EvListenUDP (Some (n_listen st));
                 EvSetTTL (n_listen st) ttl true;
                 EvWriteTo (n_listen st) [] destIP destPort false;
                 EvLog FatalSend; EvExit 1]
             [UdpConn (n_listen st)] 1 1 1 0)
| hop_timeout :
    can_send st ->
    ReadFrom os (n_read st) = ReadTimeout ->
    hop_spec destIP ttl st
      (Val Next,
       after st (sending destIP ttl (n_listen st)
                 ++ [EvReadFrom ReadTimeout; EvPrint OutTimeout])
             [UdpConn (n_listen st)] 1 1 1 1)
| hop_read_failed :
    can_send st ->
    ReadFrom os (n_read st) = ReadFailed ->
    hop_spec destIP ttl st
      (Val Next,
       after st (sending destIP ttl (n_listen st)
                 ++ [EvReadFrom ReadFailed; EvLog LogReadFailed])
             [UdpConn (n_listen st)] 1 1 1 1)
| hop_undecoded dgram peerAddr :
    can_send st ->
    ReadFrom os (n_read st) = ReadDatagram dgram peerAddr ->
    ParseMessage 1 (firstn 1500 dgram) = None ->
    hop_spec destIP ttl st
      (Val Next,
       after st (sending destIP ttl (n_listen st)
                 ++ [EvReadFrom (ReadDatagram dgram peerAddr);
                     EvLog LogParseFailed])
             [UdpConn (n_listen st)] 1 1 1 1)
| hop_time_exceeded dgram peerAddr m :
    can_send st ->
    next_reply st dgram peerAddr m ->
    kind_of m = HopLimitExceeded ->
    hop_spec destIP ttl st
      (Val Next,
       after st (sending destIP ttl (n_listen st)
                 ++ [EvReadFrom (ReadDatagram dgram peerAddr);
                     EvPrint (OutPeer peerAddr); EvPrint OutTimeExceeded])
             [UdpConn (n_listen st)] 1 1 1 1)
| hop_reached dgram peerAddr m :
    can_send st ->
    next_reply st dgram peerAddr m ->
    kind_of m = PortUnreachable ->
    hop_spec destIP ttl st
      (Val Return,
       after st (sending destIP ttl (n_listen st)
                 ++ [EvReadFrom (ReadDatagram dgram peerAddr);
                     EvPrint (OutPeer peerAddr);
                     EvPrint OutDestinationUnreachable; EvPrint OutDone])
             [UdpConn (n_listen st)] 1 1 1 1)
| hop_unknown dgram peerAddr m typ :
    can_send st ->
    next_reply st dgram peerAddr m ->
    kind_of m = Other typ ->
    hop_spec destIP ttl st
      (Val Next,
       after st (sending destIP ttl (n_listen st)
                 ++ [EvReadFrom (ReadDatagram dgram peerAddr);
                     EvPrint (OutPeer peerAddr); EvPrint (OutUnknown typ)])
             [UdpConn (n_listen st)] 1 1 1 1).

End Engine.

(** ** Networks used as concrete inputs *)

(** The destination every name resolves to: 93.184.216.34. *)
Definition example_ip : IP := (x5d, xb8, xd8, x22).

Definition args : list string := ["traceroute"; "example.com"].

(** A host on which every set-up call succeeds; [reads] are the answers of
    the ICMP connection, a timeout once they are used up, and [writes] tells
    which sends succeed. *)
Definition network (reads : list ReadResult) (writes : nat -> bool) : OS :=
  mkOS (fun _ => Some example_ip) true (fun _ => true) (fun _ => true)
       writes (fun i => nth i reads ReadTimeout).

(** ICMP time exceeded (type 11, code 0) and port unreachable (type 3,
    code 3), each followed by four unused bytes and the start of the
    datagram that caused it. *)
Definition time_exceeded : list byte :=
  [x0b; x00; xf4; xff; x00; x00; x00; x00; x45; x00; x00; x1c].
Definition port_unreachable : list byte :=
  [x03; x03; xfc; xfc; x00; x00; x00; x00; x45; x00; x00; x1c].

(** What the decoder makes of the two. *)
Definition time_exceeded_msg : Message :=
  mkMessage 11 0 62719 [x00; x00; x00; x00; x45; x00; x00; x1c].
Definition port_unreachable_msg : Message :=
  mkMessage 3 3 64764 [x00; x00; x00; x00; x45; x00; x00; x1c].

(** The scenario of the specification: hop 1 is silent, hop 2 answers time
    exceeded from 10.0.0.1, hop 3 is the destination. *)
Definition os_scenario : OS :=
  network [ReadTimeout;
           ReadDatagram time_exceeded "10.0.0.1";
           ReadDatagram port_unreachable "93.184.216.34"]
          (fun _ => true).

(** A network that never answers. *)
Definition os_silent : OS := network [] (fun _ => true).

(** The first answer is a datagram of two bytes, too short for an ICMP
    header. *)
Definition os_garbled : OS :=
  network [ReadDatagram [x0b; x00] "10.0.0.1"] (fun _ => true).


(** The second send fails. *)
Definition os_send_fails : OS :=
  network [] (fun i => Nat.eqb i 0).

(** The first socket cannot be opened; the TTL of the first cannot be set. *)
Definition os_no_socket : OS :=
  mkOS (fun _ => Some example_ip) true (fun _ => false) (fun _ => true)
       (fun _ => true) (fun _ => ReadTimeout).
Definition os_no_ttl : OS :=
  mkOS (fun _ => Some example_ip) true (fun _ => true) (fun _ => false)
       (fun _ => true) (fun _ => ReadTimeout).

(** The process when [main] enters the loop, for the command line [args]
    on the hosts above. *)
Definition entry : Proc :=
  mkProc [EvPrint (OutStart "example.com" example_ip); EvListenICMP true]
         [IcmpConn] 0 0 0 0.

(** The process after [n] iterations that all went on, the first at [k]. *)
Fixpoint after_hops (os : OS) (n : nat) (k : Z) (st : Proc) : Proc :=
  match n with
  | O => st
  | S n' => after_hops os n' (k + 1) (snd (hop icmp.ParseMessage os example_ip k st))
  end.

(** ** More readings of a trace, and more inputs *)

(** The traffic of the process, as the network sees it: a datagram went
    out, the read deadline of the ICMP connection was set to [d] from now,
    the process received (or gave up receiving). *)
Inductive Step :=
| Sent
| Armed (d : Z)
| Received.

Fixpoint exchanges (tr : list Event) : list Step :=
  match tr with
  | [] => []
  | EvWriteTo _ _ _ _ true :: tr' => Sent :: exchanges tr'
  | EvSetReadDeadline d :: tr' => Armed d :: exchanges tr'
  | EvReadFrom _ :: tr' => Received :: exchanges tr'
  | _ :: tr' => exchanges tr'
  end.

(** The connections closed, in the order they were closed. *)
Fixpoint closes (tr : list Event) : list Conn :=
  match tr with
  | [] => []
  | EvClose c :: tr' => c :: closes tr'
  | _ :: tr' => closes tr'
  end.

(** The reply buffer of 1500 zero bytes once [b], of at most 1500 bytes,
    has been written at its front. *)
Definition pad (b : list byte) : list byte :=
  b ++ repeat x00 (1500 - length b).

(** A decoder fed the whole reply buffer instead of the bytes received. *)
Definition on_buffer (ParseMessage : Z -> list byte -> option Message)
  : Z -> list byte -> option Message :=
  fun proto b => ParseMessage proto (pad b).

(** A decoder that keeps the type of a message only. *)
Definition type_only (ParseMessage : Z -> list byte -> option Message)
  : Z -> list byte -> option Message :=
  fun proto b =>
    match ParseMessage proto b with
    | Some m => Some (mkMessage (Type_ m) 0 0 [])
    | None => None
    end.

(** An ICMP redirect (type 5, code 1) and what the decoder makes of it. *)
Definition redirect : list byte :=
  [x05; x01; xfa; xfe; x0a; x00; x00; x01; x45; x00; x00; x1c].
Definition redirect_msg : Message :=
  mkMessage 5 1 64254 [x0a; x00; x00; x01; x45; x00; x00; x1c].

(** The first answer is a redirect from 10.0.0.1. *)
Definition os_redirect : OS :=
  network [ReadDatagram redirect "10.0.0.1"] (fun _ => true).

(** The first receive fails with an error that is not a timeout. *)
Definition os_read_error : OS :=
  network [ReadFailed] (fun _ => true).

(** The name does not resolve; the ICMP connection cannot be opened. *)
Definition os_unresolved : OS :=
  mkOS (fun _ => None) true (fun _ => true) (fun _ => true)
       (fun _ => true) (fun _ => ReadTimeout).
Definition os_no_icmp : OS :=
  mkOS (fun _ => Some example_ip) false (fun _ => true) (fun _ => true)
       (fun _ => true) (fun _ => ReadTimeout).

(** ** Facts about the trace readings *)

Lemma sent_from_app (tr1 tr2 : list Event) :
  forall o, sent_from o (tr1 ++ tr2)
            = sent_from o tr1 ++ sent_from (opts_after o tr1) tr2.
Proof.
  induction tr1 as [|e tr1 IH]; intro o; simpl; [reflexivity|].
  destruct e; simpl; try apply IH.
  - destruct ok; simpl; apply IH.
  - destruct ok; simpl; [f_equal|]; apply IH.
Qed.

Lemma reported_app (tr1 tr2 : list Event) :
  reported (tr1 ++ tr2) = reported tr1 ++ reported tr2.
Proof.
  induction tr1 as [|e tr1 IH]; simpl; [reflexivity|].
  destruct e; simpl; try apply IH.
  destruct o; simpl; try apply IH. f_equal. apply IH.
Qed.

Lemma receives_app (tr1 tr2 : list Event) :
  receives (tr1 ++ tr2) = (receives tr1 + receives tr2)%nat.
Proof.
  induction tr1 as [|e tr1 IH]; simpl; [reflexivity|].
  destruct e; simpl; try apply IH. f_equal. apply IH.
Qed.

Lemma zrange_S (k : Z) (n : nat) : zrange k (S n) = k :: zrange (k + 1) n.
Proof.
  unfold zrange. simpl. rewrite Z.add_0_r. f_equal.
  rewrite <- seq_shift, map_map. apply map_ext. intro j. lia.
Qed.

Lemma hoplimit_head (o : SockOpts) (s : Sock) (ttl : Z) :
  hoplimit ((s, ttl) :: o) s = Some ttl.
Proof. simpl. now rewrite Nat.eqb_refl. Qed.

(** The bytes [main.go] hands to the decoder are the datagram, cut to the
    1500 bytes of the buffer. *)
Lemma received_slice (dgram : list byte) :
  firstn (Nat.min (length dgram) (length (make 1500)))
         (firstn (Nat.min (length dgram) (length (make 1500))) dgram
          ++ skipn (Nat.min (length dgram) (length (make 1500))) (make 1500))
  = firstn 1500 dgram.
Proof.
  assert (Hm : length (make 1500) = 1500%nat) by apply repeat_length.
  rewrite Hm.
  set (n := Nat.min (length dgram) 1500).
  assert (Hl : length (firstn n dgram) = n).
  { rewrite length_firstn. unfold n. lia. }
  rewrite firstn_app, Hl, Nat.sub_diag, firstn_O, app_nil_r.
  rewrite firstn_firstn, Nat.min_id.
  destruct (Nat.le_ge_cases (length dgram) 1500) as [H|H]; unfold n.
  - rewrite Nat.min_l by exact H.
    rewrite firstn_all. symmetry. now apply firstn_all2.
  - now rewrite Nat.min_r by exact H.
Qed.

#[local] Opaque firstn skipn make Nat.min.

Section EngineFacts.

Variable ParseMessage : Z -> list byte -> option Message.
Variable os : OS.

Lemma kind_of_cases (m : Message) :
  (Type_ m =? ipv4.ICMPTypeTimeExceeded) = true /\ kind_of m = HopLimitExceeded
  \/ (Type_ m =? ipv4.ICMPTypeTimeExceeded) = false
     /\ (Type_ m =? ipv4.ICMPTypeDestinationUnreachable) = true
     /\ kind_of m = PortUnreachable
  \/ (Type_ m =? ipv4.ICMPTypeTimeExceeded) = false
     /\ (Type_ m =? ipv4.ICMPTypeDestinationUnreachable) = false
     /\ kind_of m = Other (Type_ m).
Proof.
  unfold kind_of.
  destruct (Type_ m =? ipv4.ICMPTypeTimeExceeded); [now left|].
  destruct (Type_ m =? ipv4.ICMPTypeDestinationUnreachable);
    [right; left | right; right]; now repeat split.
Qed.

(** Every iteration goes one of the nine ways. *)
Lemma hop_inv (destIP : IP) (ttl : Z) (st : Proc) :
  hop_spec ParseMessage os destIP ttl st (hop ParseMessage os destIP ttl st).
Proof.
  unfold hop, bind, Print, net_ListenPacket, p_SetTTL, p_WriteTo, defer,
    SetReadDeadline, icmpConn_ReadFrom, Logf, Fatalf, ret, emit. simpl.
  destruct (udpListenPacket os (n_listen st)) eqn:E1; simpl.
  2:{ rewrite <- !app_assoc. now apply hop_no_socket. }
  destruct (SetTTL os (n_setttl st)) eqn:E2; simpl.
  2:{ rewrite <- !app_assoc. now apply hop_no_ttl. }
  destruct (WriteTo os (n_write st)) eqn:E3; simpl.
  2:{ rewrite <- !app_assoc. now apply hop_no_send. }
  assert (Hs : can_send os st) by (now repeat split).
  destruct (ReadFrom os (n_read st)) as [| |dgram peerAddr] eqn:E4; simpl.
  - rewrite <- !app_assoc. now apply hop_timeout.
  - rewrite <- !app_assoc. now apply hop_read_failed.
  - rewrite received_slice.
    destruct (ParseMessage 1 (firstn 1500 dgram)) as [m|] eqn:E5; simpl.
    2:{ rewrite <- !app_assoc. now apply hop_undecoded. }
    assert (Hr : next_reply ParseMessage os st dgram peerAddr m) by (now split).
    destruct (kind_of_cases m) as [[T1 K]|[(T1 & T2 & K)|(T1 & T2 & K)]].
    + rewrite T1. simpl. rewrite <- !app_assoc. now apply hop_time_exceeded with m.
    + rewrite T1, T2. simpl. rewrite <- !app_assoc. now apply hop_reached with m.
    + rewrite T1, T2. simpl. rewrite <- !app_assoc. now apply hop_unknown with m.
Qed.

(** What one iteration adds to the trace, whichever way it goes. *)
Lemma hop_summary (destIP : IP) (k : Z) (st : Proc) (r : Res Ctl) (st1 : Proc) :
  hop ParseMessage os destIP k st = (r, st1) ->
  exists seg opened,
    trace st1 = trace st ++ seg
    /\ deferred st1 = opened ++ deferred st
    /\ n_listen st1 = S (n_listen st)
    /\ reported seg = [k]
    /\ match r with
       | Val Next =>
           (forall o, sent_from o seg = [probe (n_listen st) k destIP])
           /\ ~ In (EvPrint OutDone) seg
       | Val Return =>
           (forall o, sent_from o seg = [probe (n_listen st) k destIP])
           /\ In (EvPrint OutDone) seg
           /\ exists dgram peerAddr m,
               next_reply ParseMessage os st dgram peerAddr m /\ kind_of m = PortUnreachable
       | Exit c =>
           c = 1 /\ (forall o, sent_from o seg = [])
           /\ ~ In (EvPrint OutDone) seg
       | OutOfFuel => False
       end.
Proof.
  intro H. pose proof (hop_inv destIP k st) as Hi. rewrite H in Hi.
  inversion Hi; subst; clear Hi; unfold after; cbn [trace deferred n_listen];
    eexists; eexists; (split; [reflexivity|]); (split; [reflexivity|]);
    (split; [reflexivity|]); (split; [reflexivity|]); simpl;
    rewrite ?Nat.eqb_refl; unfold probe, destPort;
    repeat match goal with
           | |- _ /\ _ => split
           | |- forall _, _ => intro
           | |- ~ _ => intros Hin; simpl in Hin; intuition discriminate
           | |- In _ _ => simpl; tauto
           | |- _ \/ _ => do 8 right; left; reflexivity
           | |- exists _, _ => eauto
           | |- _ = _ => reflexivity
           end.
Qed.

(** What the loop adds to the trace, entered at [k] with any fuel. *)
Lemma loop_spec (destIP : IP) :
  forall fuel k st r st',
    loop ParseMessage os fuel destIP k st = (r, st') ->
    exists seg opened n n',
      trace st' = trace st ++ seg
      /\ deferred st' = opened ++ deferred st
      /\ reported seg = zrange k n
      /\ (Z.of_nat n <= maxHops + 1 - k \/ n = O)
      /\ (forall o, sent_from o seg
                    = map (fun j => probe (n_listen st + j)%nat (k + Z.of_nat j) destIP)
                          (seq 0 n'))
      /\ (n' = n \/ S n' = n /\ r = Exit 1)
      /\ (In (EvPrint OutDone) seg -> r = Val Returned)
      /\ (r = Val Returned ->
          In (EvPrint OutDone) seg
          /\ exists i dgram peerAddr m,
              ReadFrom os i = ReadDatagram dgram peerAddr
              /\ ParseMessage 1 (firstn 1500 dgram) = Some m
              /\ kind_of m = PortUnreachable)
      /\ ((Z.to_nat (maxHops + 1 - k) < fuel)%nat ->
          r = Val Returned \/ r = Val Exhausted \/ r = Exit 1).
Proof.
  induction fuel as [|fuel IH]; intros k st r st' H; simpl in H.
  - inversion H; subst. exists [], [], O, O. simpl.
    rewrite app_nil_r.
    repeat split; try tauto; try discriminate; try lia; auto.
  - destruct (k <=? maxHops) eqn:Hk.
    2:{ inversion H; subst. exists [], [], O, O. simpl.
        rewrite app_nil_r. repeat split; try tauto; try discriminate; auto. }
    apply Z.leb_le in Hk. unfold bind in H.
    destruct (hop ParseMessage os destIP k st) as [rh st1] eqn:Hh.
    destruct (hop_summary _ _ _ _ _ Hh) as (seg1 & op1 & T1 & D1 & L1 & R1 & C1).
    destruct rh as [[|]|c|]; [| | |contradiction].
    + (* the body says go on *)
      destruct C1 as [S1 N1].
      destruct (IH _ _ _ _ H)
        as (seg2 & op2 & n & n' & T2 & D2 & R2 & B2 & S2 & E2 & F2 & G2 & H2).
      exists (seg1 ++ seg2), (op2 ++ op1), (S n), (S n').
      split. { rewrite T2, T1. now rewrite app_assoc. }
      split. { rewrite D2, D1. now rewrite app_assoc. }
      split. { now rewrite reported_app, R1, R2, zrange_S. }
      split. { left. destruct B2; lia. }
      split.
      { intro o. rewrite sent_from_app, S1, S2. simpl.
        rewrite Nat.add_0_r, Z.add_0_r. f_equal.
        rewrite <- seq_shift, map_map. apply map_ext. intro j.
        rewrite L1. f_equal; lia. }
      split. { destruct E2 as [->|[<- ->]]; [now left | right; now split]. }
      split. { intro Hin. apply in_app_or in Hin. destruct Hin; [contradiction|auto]. }
      split. { intro Hr. destruct (G2 Hr) as [Hin Hev]. split; [|exact Hev].
               apply in_or_app. now right. }
      intro Hf. apply H2. lia.
    + (* the body returns *)
      destruct C1 as (S1 & N1 & dgram & peerAddr & m & [Hrd Hpm] & Hkind).
      unfold ret in H. inversion H; subst.
      exists seg1, op1, 1%nat, 1%nat.
      repeat split; auto.
      * rewrite R1. unfold zrange. simpl. now rewrite Z.add_0_r.
      * left. unfold maxHops in *. lia.
      * intro o. rewrite S1. simpl. now rewrite Nat.add_0_r, Z.add_0_r.
      * exists (n_read st), dgram, peerAddr, m. now repeat split.
    + (* the process exits *)
      destruct C1 as (-> & S1 & N1). inversion H; subst.
      exists seg1, op1, 1%nat, O.
      repeat split; auto; try contradiction; try discriminate.
      * rewrite R1. unfold zrange. simpl. now rewrite Z.add_0_r.
      * left. unfold maxHops in *. lia.
Qed.

Lemma kind_of_time_exceeded (m : Message) :
  kind_of m = HopLimitExceeded <-> Type_ m = ipv4.ICMPTypeTimeExceeded.
Proof.
  unfold kind_of.
  destruct (Z.eqb_spec (Type_ m) ipv4.ICMPTypeTimeExceeded) as [E|E];
    [tauto|].
  destruct (Type_ m =? ipv4.ICMPTypeDestinationUnreachable);
    split; intro H; congruence.
Qed.

Lemma kind_of_unreachable (m : Message) :
  kind_of m = PortUnreachable <-> Type_ m = ipv4.ICMPTypeDestinationUnreachable.
Proof.
  unfold kind_of.
  destruct (Z.eqb_spec (Type_ m) ipv4.ICMPTypeTimeExceeded) as [E|E].
  - split; intro H; [discriminate|].
    rewrite H in E. discriminate.
  - destruct (Z.eqb_spec (Type_ m) ipv4.ICMPTypeDestinationUnreachable);
      split; intro H; congruence.
Qed.

(** The loop, one iteration at a time. *)
Lemma loop_next (destIP : IP) (fuel : nat) (k : Z) (st st1 : Proc) :
  k <= maxHops ->
  hop ParseMessage os destIP k st = (Val Next, st1) ->
  loop ParseMessage os (S fuel) destIP k st = loop ParseMessage os fuel destIP (k + 1) st1.
Proof.
  intros Hk Hh. simpl. apply Z.leb_le in Hk. rewrite Hk.
  unfold bind. now rewrite Hh.
Qed.

Lemma loop_return (destIP : IP) (fuel : nat) (k : Z) (st st1 : Proc) :
  k <= maxHops ->
  hop ParseMessage os destIP k st = (Val Return, st1) ->
  loop ParseMessage os (S fuel) destIP k st = (Val Returned, st1).
Proof.
  intros Hk Hh. simpl. apply Z.leb_le in Hk. rewrite Hk.
  unfold bind. now rewrite Hh.
Qed.

Lemma loop_exit (destIP : IP) (fuel : nat) (k : Z) (st st1 : Proc) (c : Z) :
  k <= maxHops ->
  hop ParseMessage os destIP k st = (Exit c, st1) ->
  loop ParseMessage os (S fuel) destIP k st = (Exit c, st1).
Proof.
  intros Hk Hh. simpl. apply Z.leb_le in Hk. rewrite Hk.
  unfold bind. now rewrite Hh.
Qed.

Lemma loop_exhausted (destIP : IP) (fuel : nat) (k : Z) (st : Proc) :
  maxHops < k ->
  loop ParseMessage os (S fuel) destIP k st = (Val Exhausted, st).
Proof.
  intro Hk. simpl. apply Z.leb_gt in Hk. now rewrite Hk.
Qed.

(** An iteration starts by printing its hop number. *)
Lemma loop_first_event (destIP : IP) (fuel : nat) (k : Z) (st : Proc) :
  k <= maxHops ->
  exists tl,
    trace (snd (loop ParseMessage os (S fuel) destIP k st)) = trace st ++ EvPrint (OutHop k) :: tl.
Proof.
  intro Hk.
  assert (Hfirst : exists tl, trace (snd (hop ParseMessage os destIP k st))
                              = trace st ++ EvPrint (OutHop k) :: tl).
  { destruct (hop_inv destIP k st); unfold after, sending; simpl; eauto. }
  destruct Hfirst as [tl1 Htl1].
  destruct (hop ParseMessage os destIP k st) as [[[|]|c|] st1] eqn:Hh; simpl in Htl1.
  - rewrite (loop_next _ _ _ _ _ Hk Hh).
    destruct (loop ParseMessage os fuel destIP (k + 1) st1) as [r st2] eqn:Hl.
    destruct (loop_spec _ _ _ _ _ _ Hl) as (seg & _ & _ & _ & T & _).
    simpl. rewrite T, Htl1, <- app_assoc. simpl. eauto.
  - rewrite (loop_return _ _ _ _ _ Hk Hh). simpl. eauto.
  - rewrite (loop_exit _ _ _ _ _ _ Hk Hh). simpl. eauto.
  - destruct (hop_summary _ _ _ _ _ Hh) as (? & ? & _ & _ & _ & _ & []).
Qed.

(** The oracle decides which of the nine ways an iteration goes. *)
Ltac one_way Hi :=
  inversion Hi; subst; clear Hi;
  unfold can_send, next_reply in *;
  repeat match goal with
         | H : _ /\ _ |- _ => destruct H
         end;
  repeat match goal with
         | H1 : ReadFrom ?o ?i = _, H2 : ReadFrom ?o ?i = _ |- _ =>
             rewrite H1 in H2; inversion H2; subst; clear H2
         | H1 : ParseMessage 1 ?b = _, H2 : ParseMessage 1 ?b = _ |- _ =>
             rewrite H1 in H2; inversion H2; subst; clear H2
         end;
  try congruence; try reflexivity.

Lemma hop_on_time_exceeded destIP k st dgram peerAddr m :
  can_send os st ->
  next_reply ParseMessage os st dgram peerAddr m ->
  Type_ m = ipv4.ICMPTypeTimeExceeded ->
  hop ParseMessage os destIP k st
  = (Val Next,
     after st
       (sending destIP k (n_listen st)
        ++ [EvReadFrom (ReadDatagram dgram peerAddr);
            EvPrint (OutPeer peerAddr); EvPrint OutTimeExceeded])
       [UdpConn (n_listen st)] 1 1 1 1).
Proof.
  intros Hs Hr Hk. apply kind_of_time_exceeded in Hk.
  pose proof (hop_inv destIP k st) as Hi.
  destruct (hop ParseMessage os destIP k st) as [r st1]. one_way Hi.
Qed.

Lemma hop_on_unreachable destIP k st dgram peerAddr m :
  can_send os st ->
  next_reply ParseMessage os st dgram peerAddr m ->
  Type_ m = ipv4.ICMPTypeDestinationUnreachable ->
  hop ParseMessage os destIP k st
  = (Val Return,
     after st
       (sending destIP k (n_listen st)
        ++ [EvReadFrom (ReadDatagram dgram peerAddr);
            EvPrint (OutPeer peerAddr);
            EvPrint OutDestinationUnreachable; EvPrint OutDone])
       [UdpConn (n_listen st)] 1 1 1 1).
Proof.
  intros Hs Hr Hk. apply kind_of_unreachable in Hk.
  pose proof (hop_inv destIP k st) as Hi.
  destruct (hop ParseMessage os destIP k st) as [r st1]. one_way Hi.
Qed.

Lemma hop_on_timeout destIP k st :
  can_send os st ->
  ReadFrom os (n_read st) = ReadTimeout ->
  hop ParseMessage os destIP k st
  = (Val Next,
     after st
       (sending destIP k (n_listen st)
        ++ [EvReadFrom ReadTimeout; EvPrint OutTimeout])
       [UdpConn (n_listen st)] 1 1 1 1).
Proof.
  intros Hs Hr. pose proof (hop_inv destIP k st) as Hi.
  destruct (hop ParseMessage os destIP k st) as [r st1]. one_way Hi.
Qed.

Lemma hop_on_undecoded destIP k st dgram peerAddr :
  can_send os st ->
  ReadFrom os (n_read st) = ReadDatagram dgram peerAddr ->
  ParseMessage 1 (firstn 1500 dgram) = None ->
  hop ParseMessage os destIP k st
  = (Val Next,
     after st
       (sending destIP k (n_listen st)
        ++ [EvReadFrom (ReadDatagram dgram peerAddr); EvLog LogParseFailed])
       [UdpConn (n_listen st)] 1 1 1 1).
Proof.
  intros Hs Hr Hp. pose proof (hop_inv destIP k st) as Hi.
  destruct (hop ParseMessage os destIP k st) as [r st1]. one_way Hi.
Qed.

(** After an iteration that goes on, the next thing the process does is to
    print the next hop number, if there is a next hop. *)
Lemma next_hop_follows (destIP : IP) (fuel : nat) (k : Z) (st st1 : Proc) :
  k <= maxHops ->
  hop ParseMessage os destIP k st = (Val Next, st1) ->
  k + 1 <= maxHops ->
  exists tl,
    trace (snd (loop ParseMessage os (S (S fuel)) destIP k st))
    = trace st1 ++ EvPrint (OutHop (k + 1)) :: tl.
Proof.
  intros Hk Hh Hk1. rewrite (loop_next _ _ _ _ _ Hk Hh).
  now apply loop_first_event.
Qed.

(** Against a network that never answers the loop runs to the ceiling. *)
Lemma silent_loop (destIP : IP) :
  (forall i, udpListenPacket os i = true /\ SetTTL os i = true
             /\ WriteTo os i = true /\ ReadFrom os i = ReadTimeout) ->
  forall fuel k st,
    (Z.to_nat (maxHops + 1 - k) < fuel)%nat ->
    exists st',
      loop ParseMessage os fuel destIP k st = (Val Exhausted, st')
      /\ reported (trace st')
         = reported (trace st) ++ zrange k (Z.to_nat (maxHops + 1 - k))
      /\ ~ In (EvPrint OutDone) (skipn (length (trace st)) (trace st')).
Proof.
  intro Hos. induction fuel as [|fuel IH]; intros k st Hf; [lia|].
  destruct (Z.leb_spec k maxHops) as [Hk|Hk].
  - assert (Hs : can_send os st).
    { unfold can_send. repeat split; apply Hos. }
    assert (Hr : ReadFrom os (n_read st) = ReadTimeout) by apply Hos.
    pose proof (hop_on_timeout destIP k st Hs Hr) as Hh.
    rewrite (loop_next _ _ _ _ _ Hk Hh).
    destruct (IH (k + 1) (after st (sending destIP k (n_listen st)
                                    ++ [EvReadFrom ReadTimeout; EvPrint OutTimeout])
                                [UdpConn (n_listen st)] 1 1 1 1))
      as (st' & Hl & Hrep & Hdone); [lia|].
    exists st'. split; [exact Hl|].
    destruct (loop_spec _ _ _ _ _ _ Hl) as (seg & _ & _ & _ & T & _).
    unfold after in *. cbn [trace] in *.
    split.
    + replace (Z.to_nat (maxHops + 1 - k))
        with (S (Z.to_nat (maxHops + 1 - (k + 1)))) by lia.
      rewrite zrange_S, Hrep, reported_app. simpl.
      now rewrite <- app_assoc.
    + rewrite T in Hdone |- *. rewrite skipn_app, skipn_all, Nat.sub_diag in Hdone.
      simpl in Hdone. rewrite <- app_assoc, skipn_app, skipn_all, Nat.sub_diag.
      simpl. intros [H|[H|[H|[H|[H|[H|[H|H]]]]]]]; try discriminate.
      now apply Hdone.
  - rewrite (loop_exhausted _ _ _ _ Hk).
    exists st. split; [reflexivity|].
    replace (Z.to_nat (maxHops + 1 - k)) with O by lia.
    unfold zrange. simpl. rewrite app_nil_r. split; [reflexivity|].
    rewrite skipn_all. auto.
Qed.

(** The deferred closes and the exit print nothing and send nothing. *)
Lemma closing_is_silent (cs : list Conn) (c : Z) :
  reported (map EvClose cs ++ [EvExit c]) = []
  /\ (forall o, sent_from o (map EvClose cs ++ [EvExit c]) = [])
  /\ ~ In (EvPrint OutDone) (map EvClose cs ++ [EvExit c]).
Proof.
  induction cs as [|x cs (IH1 & IH2 & IH3)]; simpl.
  - repeat split; auto. intros [H|[]]. discriminate.
  - repeat split; auto. intros [H|H]; [discriminate|auto].
Qed.

(** A whole run, from the start of the process. *)
Lemma program_spec (args : list string) (r : Res unit) (st : Proc) :
  program ParseMessage os args init = (r, st) ->
  exists n n' destIP,
    (r = Exit 0 \/ r = Exit 1)
    /\ (n <= 30)%nat
    /\ reported (trace st) = zrange 1 n
    /\ (n' = n \/ S n' = n /\ r = Exit 1)
    /\ sent (trace st) = map (fun j => probe j (1 + Z.of_nat j) destIP) (seq 0 n')
    /\ (n' = O \/ ResolveIPAddr os (nth 1 args "") = Some destIP)
    /\ (In (EvPrint OutDone) (trace st) ->
        r = Exit 0
        /\ exists i dgram peerAddr m,
            ReadFrom os i = ReadDatagram dgram peerAddr
            /\ ParseMessage 1 (firstn 1500 dgram) = Some m
            /\ Type_ m = ipv4.ICMPTypeDestinationUnreachable).
Proof.
  unfold program, main, bind, Fatalf, Print, icmp_ListenPacket, defer, emit, init.
  cbn [trace deferred n_listen n_setttl n_write n_read].
  destruct (length args <? 2)%nat.
  { intro H. inversion H; subst. exists O, O, (x00, x00, x00, x00). simpl.
    repeat split; auto; try lia; exfalso; simpl in *; intuition discriminate. }
  destruct (ResolveIPAddr os (nth 1 args "")) as [destIP|].
  2:{ intro H. inversion H; subst. exists O, O, (x00, x00, x00, x00). simpl.
      repeat split; auto; try lia; exfalso; simpl in *; intuition discriminate. }
  destruct (icmpListenPacket os); cbn [negb app].
  2:{ intro H. inversion H; subst. exists O, O, (x00, x00, x00, x00). simpl.
      repeat split; auto; try lia; exfalso; simpl in *; intuition discriminate. }
  match goal with
  | |- context [loop _ _ ?f _ _ ?s] =>
      set (st0 := s); destruct (loop ParseMessage os f destIP 1 st0) as [rl stl] eqn:Hl
  end.
  destruct (loop_spec _ _ _ _ _ _ Hl)
    as (seg & op & n & n' & T & D & R & B & Hs & E & F & G & Htot).
  assert (Hn : (n <= 30)%nat).
  { destruct B as [B| ->]; [unfold maxHops in B|]; lia. }
  assert (Hsent : forall tl, (forall o, sent_from o tl = []) ->
             sent (trace st0 ++ seg ++ tl)
             = map (fun j => probe j (1 + Z.of_nat j) destIP) (seq 0 n')).
  { intros tl Htl. unfold sent. rewrite sent_from_app. simpl.
    now rewrite sent_from_app, Hs, Htl, app_nil_r. }
  assert (Hrep : forall tl, reported tl = [] ->
             reported (trace st0 ++ seg ++ tl) = zrange 1 n).
  { intros tl Htl. rewrite reported_app. simpl.
    now rewrite reported_app, R, Htl, app_nil_r. }
  assert (Hdone : forall tl, ~ In (EvPrint OutDone) tl ->
             In (EvPrint OutDone) (trace st0 ++ seg ++ tl) -> rl = Val Returned).
  { intros tl Htl Hin. apply in_app_or in Hin.
    destruct Hin as [[H1|[H1|[]]]|Hin]; try discriminate.
    apply in_app_or in Hin. destruct Hin; [auto|contradiction]. }
  assert (Hfuel : rl = Val Returned \/ rl = Val Exhausted \/ rl = Exit 1).
  { apply Htot. unfold maxHops. simpl. lia. }
  destruct rl as [e|c|].
  - (* [main] returns *)
    unfold return_from_main. intro H. inversion H; subst r st. clear H.
    cbn [trace]. rewrite T.
    destruct (closing_is_silent (deferred stl) 0) as (C1 & C2 & C3).
    exists n, n', destIP. rewrite <- app_assoc.
    split; [now left|]. split; [exact Hn|].
    split; [now apply Hrep|].
    split. { destruct E as [E|[_ E]]; [now left|discriminate]. }
    split; [now apply Hsent|]. split; [now right|].
    intro Hin. split; [reflexivity|].
    destruct (G (Hdone _ C3 Hin)) as (_ & i & dgram & peerAddr & m & H1 & H2 & H3).
    exists i, dgram, peerAddr, m. repeat split; auto.
    now apply kind_of_unreachable.
  - (* the process exits inside the loop *)
    intro H. inversion H; subst r st. clear H.
    destruct Hfuel as [H|[H|H]]; try discriminate. inversion H; subst c.
    exists n, n', destIP. rewrite T.
    rewrite <- (app_nil_r seg).
    split; [now right|]. split; [exact Hn|].
    split; [now apply Hrep|].
    split. { destruct E as [E|[E _]]; [now left | right; now split]. }
    split; [now apply Hsent|]. split; [now right|].
    intro Hin. apply Hdone in Hin; [discriminate|auto].
  - destruct Hfuel as [H|[H|H]]; discriminate.
Qed.

Lemma zrange_length (k : Z) (n : nat) : length (zrange k n) = n.
Proof. unfold zrange. now rewrite length_map, length_seq. Qed.


Lemma probes_sock (destIP : IP) (n : nat) :
  map dg_sock (map (fun j => probe j (1 + Z.of_nat j) destIP) (seq 0 n))
  = seq 0 n.
Proof. rewrite map_map. simpl. now rewrite map_id. Qed.

(** Nothing is closed inside the loop: closing is left to the return from
    [main]. *)
Lemma loop_closes_nothing (destIP : IP) (c : Conn) :
  forall fuel k st,
    In (EvClose c) (trace (snd (loop ParseMessage os fuel destIP k st))) ->
    In (EvClose c) (trace st).
Proof.
  induction fuel as [|fuel IH]; intros k st Hin; [exact Hin|].
  destruct (Z.leb_spec k maxHops) as [Hk|Hk].
  2:{ now rewrite (loop_exhausted _ _ _ _ Hk) in Hin. }
  assert (Hhop : In (EvClose c) (trace (snd (hop ParseMessage os destIP k st))) ->
                 In (EvClose c) (trace st)).
  { destruct (hop_inv destIP k st); unfold after, sending; simpl;
      intro Hc; apply in_app_or in Hc; destruct Hc as [Hc|Hc]; auto;
      simpl in Hc; exfalso; intuition discriminate. }
  destruct (hop ParseMessage os destIP k st) as [[[|]|x|] st1] eqn:Hh; simpl in Hhop.
  - rewrite (loop_next _ _ _ _ _ Hk Hh) in Hin. apply Hhop. now apply IH in Hin.
  - rewrite (loop_return _ _ _ _ _ Hk Hh) in Hin. now apply Hhop.
  - rewrite (loop_exit _ _ _ _ _ _ Hk Hh) in Hin. now apply Hhop.
  - destruct (hop_summary _ _ _ _ _ Hh) as (? & ? & _ & _ & _ & _ & []).
Qed.

(** The deferred closes run on return only: a run that ends with status 0
    closes the ICMP connection, a run that ends with status 1 closes
    nothing. *)
Lemma closing_depends_on_the_exit (args : list string) (r : Res unit) (st : Proc) :
  program ParseMessage os args init = (r, st) ->
  (r = Exit 0 -> In (EvClose IcmpConn) (trace st))
  /\ (r = Exit 1 -> forall c, ~ In (EvClose c) (trace st)).
Proof.
  unfold program, main, bind, Fatalf, Print, icmp_ListenPacket, defer, emit, init.
  cbn [trace deferred n_listen n_setttl n_write n_read].
  destruct (length args <? 2)%nat.
  { intro H. inversion H; subst. split; [discriminate|].
    intros _ c Hin. simpl in Hin. intuition discriminate. }
  destruct (ResolveIPAddr os (nth 1 args "")) as [destIP|].
  2:{ intro H. inversion H; subst. split; [discriminate|].
      intros _ c Hin. simpl in Hin. intuition discriminate. }
  destruct (icmpListenPacket os); cbn [negb app].
  2:{ intro H. inversion H; subst. split; [discriminate|].
      intros _ c Hin. simpl in Hin. intuition discriminate. }
  match goal with
  | |- context [loop _ _ ?f _ _ ?s] =>
      set (st0 := s); destruct (loop ParseMessage os f destIP 1 st0) as [rl stl] eqn:Hl
  end.
  destruct (loop_spec _ _ _ _ _ _ Hl) as (seg & op & _ & _ & T & D & _).
  destruct rl as [e|x|]; intro H; inversion H; subst r st; clear H.
  - split; [|discriminate]. intros _. unfold return_from_main. cbn [trace].
    apply in_or_app. right. apply in_or_app. left. rewrite D.
    apply in_map, in_or_app. right. simpl. now left.
  - split; [intro Hx|intros _ c Hin].
    + pose proof (loop_spec _ _ _ _ _ _ Hl) as (_ & _ & _ & _ & _ & _ & _ & _ & _ & _ & _ & _ & Htot).
      destruct Htot as [Hx'|[Hx'|Hx']]; [unfold maxHops; simpl; lia| | |];
        try discriminate. inversion Hx'. inversion Hx. congruence.
    + assert (Hin0 : In (EvClose c) (trace st0)).
      { apply (loop_closes_nothing destIP c (S (Z.to_nat maxHops)) 1 st0).
        now rewrite Hl. }
      simpl in Hin0. intuition discriminate.
  - split; discriminate.
Qed.

(** ** The claims *)

(** C1. For every TTL k: when the reply to the probe at TTL k is a
    destination-unreachable message (the kind the specification calls
    PortUnreachable), the engine prints hop k with the address of the
    responder, the tag and the completion line, and the run ends there with
    exit status 0: nothing more is sent, the deferred closes run.  An
    iteration returns from [main] only on such a reply, and every other
    decoded reply lets the loop go on. *)
Theorem C1_destination_unreachable_ends_the_run (destIP : IP) (k : Z) :
  (forall fuel st dgram peerAddr m,
      k <= maxHops ->
      can_send os st ->
      next_reply ParseMessage os st dgram peerAddr m ->
      Type_ m = ipv4.ICMPTypeDestinationUnreachable ->
      exists st',
        (loop ParseMessage os (S fuel) destIP k ;; return_from_main) st = (Exit 0, st')
        /\ trace st'
           = trace st
             ++ sending destIP k (n_listen st)
             ++ [EvReadFrom (ReadDatagram dgram peerAddr);
                 EvPrint (OutPeer peerAddr);
                 EvPrint OutDestinationUnreachable; EvPrint OutDone]
             ++ map EvClose (UdpConn (n_listen st) :: deferred st)
             ++ [EvExit 0])
  /\ (forall st st1,
         hop ParseMessage os destIP k st = (Val Return, st1) ->
         exists dgram peerAddr m,
           next_reply ParseMessage os st dgram peerAddr m
           /\ Type_ m = ipv4.ICMPTypeDestinationUnreachable)
  /\ (forall st dgram peerAddr m,
         can_send os st ->
         next_reply ParseMessage os st dgram peerAddr m ->
         Type_ m <> ipv4.ICMPTypeDestinationUnreachable ->
         exists st1, hop ParseMessage os destIP k st = (Val Next, st1)).
Proof.
  split; [|split].
  - intros fuel st dgram peerAddr m Hk Hs Hr Ht.
    pose proof (hop_on_unreachable destIP k st _ _ _ Hs Hr Ht) as Hh.
    eexists. unfold bind at 1.
    rewrite (loop_return _ fuel _ _ _ Hk Hh).
    unfold return_from_main, after. cbn [trace deferred].
    split; [reflexivity|]. cbn [trace]. now rewrite <- !app_assoc.
  - intros st st1 Hh.
    destruct (hop_summary _ _ _ _ _ Hh)
      as (_ & _ & _ & _ & _ & _ & _ & _ & dgram & peerAddr & m & Hr & Hkind).
    exists dgram, peerAddr, m. split; [exact Hr|].
    now apply kind_of_unreachable.
  - intros st dgram peerAddr m Hs Hr Ht.
    assert (Hkind : kind_of m <> PortUnreachable).
    { intro H. now apply kind_of_unreachable in H. }
    pose proof (hop_inv destIP k st) as Hi.
    destruct (hop ParseMessage os destIP k st) as [r st1]. one_way Hi; eauto.
Qed.

(** C5. For every TTL k: when the reply to the probe at TTL k is a
    time-exceeded message from address A, the engine prints hop k with A
    and the Time Exceeded tag, does not end the run, and goes on with
    TTL k+1. *)
Theorem C5_time_exceeded_reports_the_hop_and_continues
        (destIP : IP) (fuel : nat) (k : Z) (st : Proc)
        (dgram : list byte) (A : string) (m : Message) :
  k <= maxHops ->
  can_send os st ->
  next_reply ParseMessage os st dgram A m ->
  Type_ m = ipv4.ICMPTypeTimeExceeded ->
  exists st1,
    hop ParseMessage os destIP k st = (Val Next, st1)
    /\ trace st1
       = trace st
         ++ sending destIP k (n_listen st)
         ++ [EvReadFrom (ReadDatagram dgram A);
             EvPrint (OutPeer A); EvPrint OutTimeExceeded]
    /\ loop ParseMessage os (S fuel) destIP k st = loop ParseMessage os fuel destIP (k + 1) st1
    /\ (k + 1 <= maxHops ->
        exists tl,
          trace (snd (loop ParseMessage os (S (S fuel)) destIP k st))
          = trace st1 ++ EvPrint (OutHop (k + 1)) :: tl).
Proof.
  intros Hk Hs Hr Ht.
  pose proof (hop_on_time_exceeded destIP k st _ _ _ Hs Hr Ht) as Hh.
  eexists. split; [exact Hh|]. split; [reflexivity|].
  split; [now apply loop_next|]. now apply next_hop_follows.
Qed.

(** C6. For every TTL k: when the receive, whose deadline is two seconds
    after the send, times out, the engine prints the marker
    [* * * Request timed out.] for hop k, logs no error, and goes on with
    TTL k+1.  Against a network that never answers the loop prints the hop
    numbers 1 to 30 and ends at the ceiling: timeouts neither change the
    TTL progression nor abort the run. *)
Theorem C6_timeout_is_a_hop_outcome (destIP : IP) :
  (forall fuel k st,
      k <= maxHops ->
      can_send os st ->
      ReadFrom os (n_read st) = ReadTimeout ->
      exists st1,
        hop ParseMessage os destIP k st = (Val Next, st1)
        /\ trace st1
           = trace st
             ++ [EvPrint (OutHop k); EvListenUDP (Some (n_listen st));
                 EvSetTTL (n_listen st) k true;
                 EvWriteTo (n_listen st) [] destIP destPort true;
                 EvSetReadDeadline (2 * Second);
                 EvReadFrom ReadTimeout; EvPrint OutTimeout]
        /\ loop ParseMessage os (S fuel) destIP k st = loop ParseMessage os fuel destIP (k + 1) st1
        /\ (k + 1 <= maxHops ->
            exists tl,
              trace (snd (loop ParseMessage os (S (S fuel)) destIP k st))
              = trace st1 ++ EvPrint (OutHop (k + 1)) :: tl))
  /\ render OutTimeout = ("* * * Request timed out." ++ newline)%string
  /\ ((forall i, udpListenPacket os i = true /\ SetTTL os i = true
                 /\ WriteTo os i = true /\ ReadFrom os i = ReadTimeout) ->
      forall st,
      exists st',
        loop ParseMessage os (S (Z.to_nat maxHops)) destIP 1 st = (Val Exhausted, st')
        /\ reported (trace st') = reported (trace st) ++ zrange 1 30).
Proof.
  split; [|split].
  - intros fuel k st Hk Hs Hr.
    pose proof (hop_on_timeout destIP k st Hs Hr) as Hh.
    eexists. split; [exact Hh|]. split; [reflexivity|].
    split; [now apply loop_next|]. now apply next_hop_follows.
  - reflexivity.
  - intros Hos st.
    destruct (silent_loop destIP Hos (S (Z.to_nat maxHops)) 1 st)
      as (st' & Hl & Hrep & _); [unfold maxHops; lia|].
    exists st'. split; [exact Hl|]. exact Hrep.
Qed.

(** C2, as the code has it.  For every TTL k: when the bytes received do
    not decode, the failure is logged, nothing is printed for them, the
    process does not exit, and the engine receives no second time for that
    hop: it goes on with TTL k+1, and when k is below the ceiling the next
    thing it does after the log line is to print hop number k+1. *)
Theorem C2_decode_failure_moves_to_the_next_ttl
        (destIP : IP) (fuel : nat) (k : Z) (st : Proc)
        (dgram : list byte) (peerAddr : string) :
  k <= maxHops ->
  can_send os st ->
  ReadFrom os (n_read st) = ReadDatagram dgram peerAddr ->
  ParseMessage 1 (firstn 1500 dgram) = None ->
  exists st1,
    hop ParseMessage os destIP k st = (Val Next, st1)
    /\ trace st1
       = trace st
         ++ sending destIP k (n_listen st)
         ++ [EvReadFrom (ReadDatagram dgram peerAddr); EvLog LogParseFailed]
    /\ n_read st1 = S (n_read st)
    /\ loop ParseMessage os (S fuel) destIP k st = loop ParseMessage os fuel destIP (k + 1) st1
    /\ (k + 1 <= maxHops ->
        exists tl,
          trace (snd (loop ParseMessage os (S (S fuel)) destIP k st))
          = trace st1 ++ EvPrint (OutHop (k + 1)) :: tl).
Proof.
  intros Hk Hs Hr Hp.
  pose proof (hop_on_undecoded destIP k st _ _ Hs Hr Hp) as Hh.
  eexists. split; [exact Hh|]. split; [reflexivity|]. split; [reflexivity|].
  split; [now apply loop_next|]. now apply next_hop_follows.
Qed.

(** C8. For every iteration: when the sending socket cannot be opened, or
    its TTL cannot be set, or the send fails, the process logs the fatal
    message and exits with status 1 right there: the operation is not tried
    again, no datagram leaves the host in that iteration or later, and
    nothing is received. *)
Theorem C8_send_side_failure_is_fatal
        (destIP : IP) (fuel : nat) (k : Z) (st : Proc) :
  k <= maxHops ->
  udpListenPacket os (n_listen st) = false
  \/ SetTTL os (n_setttl st) = false
  \/ WriteTo os (n_write st) = false ->
  exists st' seg m,
    (loop ParseMessage os (S fuel) destIP k ;; return_from_main) st = (Exit 1, st')
    /\ trace st' = trace st ++ EvPrint (OutHop k) :: seg ++ [EvLog m; EvExit 1]
    /\ (m = FatalSocket \/ m = FatalSetTTL \/ m = FatalSend)
    /\ sent (trace st') = sent (trace st)
    /\ receives (trace st') = receives (trace st)
    /\ n_listen st' = S (n_listen st)
    /\ (n_setttl st' <= S (n_setttl st))%nat
    /\ (n_write st' <= S (n_write st))%nat.
Proof.
  intros Hk Hfail.
  assert (Hh : exists st' seg m,
             hop ParseMessage os destIP k st = (Exit 1, st')
             /\ trace st' = trace st ++ EvPrint (OutHop k) :: seg ++ [EvLog m; EvExit 1]
             /\ (m = FatalSocket \/ m = FatalSetTTL \/ m = FatalSend)
             /\ (forall o, sent_from o (EvPrint (OutHop k) :: seg ++ [EvLog m; EvExit 1]) = [])
             /\ receives (EvPrint (OutHop k) :: seg ++ [EvLog m; EvExit 1]) = O
             /\ n_listen st' = S (n_listen st)
             /\ (n_setttl st' <= S (n_setttl st))%nat
             /\ (n_write st' <= S (n_write st))%nat).
  { pose proof (hop_inv destIP k st) as Hi.
    destruct (hop ParseMessage os destIP k st) as [r st1].
    inversion Hi; subst; clear Hi;
      unfold can_send in *;
      try (exfalso; intuition congruence).
    - exists (after st [EvPrint (OutHop k); EvListenUDP None; EvLog FatalSocket; EvExit 1] [] 1 0 0 0),
        [EvListenUDP None], FatalSocket.
      unfold after; simpl; repeat split; auto; lia.
    - exists (after st [EvPrint (OutHop k); EvListenUDP (Some (n_listen st));
                        EvSetTTL (n_listen st) k false;
                        EvLog FatalSetTTL; EvExit 1] [] 1 1 0 0),
        [EvListenUDP (Some (n_listen st)); EvSetTTL (n_listen st) k false], FatalSetTTL.
      unfold after; simpl; repeat split; auto; lia.
    - exists (after st [EvPrint (OutHop k); EvListenUDP (Some (n_listen st));
                        EvSetTTL (n_listen st) k true;
                        EvWriteTo (n_listen st) [] destIP destPort false;
                        EvLog FatalSend; EvExit 1]
                    [UdpConn (n_listen st)] 1 1 1 0),
        [EvListenUDP (Some (n_listen st)); EvSetTTL (n_listen st) k true;
         EvWriteTo (n_listen st) [] destIP destPort false], FatalSend.
      unfold after; simpl; repeat split; auto; lia. }
  destruct Hh as (st' & seg & m & Hh & T & Hm & S & R & L1 & L2 & L3).
  exists st', seg, m. unfold bind at 1.
  rewrite (loop_exit _ fuel _ _ _ _ Hk Hh).
  split; [reflexivity|]. split; [exact T|]. split; [exact Hm|].
  split. { unfold sent. now rewrite T, sent_from_app, S, app_nil_r. }
  split. { rewrite T, receives_app, R. lia. }
  auto.
Qed.

(** C3. Whatever the network answers, a run ends (with exit status 0 or
    1), at most 30 datagrams leave the host, each with a hop limit between
    1 and 30, and at most 30 hop numbers are printed.  The completion line
    is printed only when a destination-unreachable reply was decoded: a run
    that reaches the ceiling, such as one against a network that never
    answers, ends without it. *)
Theorem C3_at_most_thirty_probes (args : list string) :
  let run := program ParseMessage os args init in
  (fst run = Exit 0 \/ fst run = Exit 1)
  /\ (length (sent (trace (snd run))) <= 30)%nat
  /\ (forall d, In d (sent (trace (snd run))) ->
                exists k, dg_hoplimit d = Some k /\ 1 <= k <= 30)
  /\ (length (reported (trace (snd run))) <= 30)%nat
  /\ (In (EvPrint OutDone) (trace (snd run)) ->
      exists i dgram peerAddr m,
        ReadFrom os i = ReadDatagram dgram peerAddr
        /\ ParseMessage 1 (firstn 1500 dgram) = Some m
        /\ Type_ m = ipv4.ICMPTypeDestinationUnreachable)
  /\ ((forall i, ReadFrom os i = ReadTimeout) ->
      ~ In (EvPrint OutDone) (trace (snd run))).
Proof.
  intro run. destruct run as [r st] eqn:Hrun. unfold run in Hrun. simpl.
  destruct (program_spec args r st Hrun)
    as (n & n' & destIP & Hr & Hn & Hrep & Hnn & Hsent & _ & Hdone).
  assert (Hn' : (n' <= 30)%nat) by (destruct Hnn as [->|[<- _]]; lia).
  split; [exact Hr|].
  split. { now rewrite Hsent, length_map, length_seq. }
  split.
  { intros d Hd. rewrite Hsent in Hd. apply in_map_iff in Hd.
    destruct Hd as (j & <- & Hj). apply in_seq in Hj.
    exists (1 + Z.of_nat j). split; [reflexivity|lia]. }
  split. { now rewrite Hrep, zrange_length. }
  split. { intro Hin. now apply Hdone. }
  intros Hsilent Hin.
  destruct (Hdone Hin) as (_ & i & dgram & peerAddr & m & Hrd & _).
  rewrite Hsilent in Hrd. discriminate.
Qed.


(** C9. In every run the j-th datagram sent (j = 0, 1, ...) is empty, goes
    to port 33434 of the address the target resolved to, carries hop limit
    j+1, and is written on the j-th sending socket: the sockets of two
    datagrams differ.  One datagram is sent per hop number printed, except
    that the last iteration sends none when the process exits in it.  Each
    iteration opens one socket and writes at most once. *)
Theorem C9_one_empty_datagram_per_hop (args : list string) :
  (let run := program ParseMessage os args init in
   exists n destIP,
     (n <= 30)%nat
     /\ (n = O \/ ResolveIPAddr os (nth 1 args "") = Some destIP)
     /\ sent (trace (snd run))
        = map (fun j => mkDatagram j (Some (1 + Z.of_nat j)) destIP 33434 [])
              (seq 0 n)
     /\ NoDup (map dg_sock (sent (trace (snd run))))
     /\ (length (reported (trace (snd run))) = n
         \/ length (reported (trace (snd run))) = S n /\ fst run = Exit 1))
  /\ (forall destIP k st,
         n_listen (snd (hop ParseMessage os destIP k st)) = S (n_listen st)
         /\ (n_write (snd (hop ParseMessage os destIP k st)) <= S (n_write st))%nat).
Proof.
  split.
  - intro run. destruct run as [r st] eqn:Hrun. unfold run in Hrun. simpl.
    destruct (program_spec args r st Hrun)
      as (n & n' & destIP & _ & Hn & Hrep & Hnn & Hsent & Hres & _).
    exists n', destIP.
    split. { destruct Hnn as [->|[<- _]]; lia. }
    split; [exact Hres|]. split; [exact Hsent|].
    split. { rewrite Hsent, probes_sock. apply seq_NoDup. }
    rewrite Hrep, zrange_length.
    destruct Hnn as [->|[<- ->]]; [now left | now right].
  - intros destIP k st.
    destruct (hop_inv destIP k st); unfold after; simpl; split; lia.
Qed.

End EngineFacts.

(** ** The claims on concrete inputs *)

(** C7. The run in which the second send fails: the ICMP connection was
    opened and its close deferred, the process exits with status 1 through
    [log.Fatalf], and the close never runs.  (On the runs that return from
    [main] it does run: [closing_depends_on_the_exit].) *)
Theorem C7_send_failure_leaves_the_icmp_connection_open :
  let run := program icmp.ParseMessage os_send_fails args init in
  fst run = Exit 1
  /\ In (EvListenICMP true) (trace (snd run))
  /\ In IcmpConn (deferred (snd run))
  /\ ~ In (EvClose IcmpConn) (trace (snd run)).
Proof.
  vm_compute. split; [reflexivity|]. split; [tauto|]. split; [tauto|].
  intuition discriminate.
Qed.


(** C2, as the specification has it, fails on the run whose first answer is
    a datagram of two bytes: after the decode failure is logged the process
    does not receive again, it prints hop number 2. *)
Lemma C2_counterexample_no_second_receive :
  ~ retries_receive (trace (snd (program icmp.ParseMessage os_garbled args init))).
Proof.
  intro H.
  set (tr := trace (snd (program icmp.ParseMessage os_garbled args init))) in H.
  destruct (H (firstn 8 tr) (skipn 9 tr)) as (r & post' & Hpost).
  - vm_compute. reflexivity.
  - vm_compute in Hpost. discriminate.
Qed.

(** ** The claims at work on the scenario of the specification *)

(** Hop 3 of the scenario: the destination answers and the run ends. *)
Lemma C1_witness_scenario_hop_3 :
  let st := after_hops os_scenario 2 1 entry in
  can_send os_scenario st
  /\ next_reply icmp.ParseMessage os_scenario st
                port_unreachable "93.184.216.34" port_unreachable_msg
  /\ exists st',
      (loop icmp.ParseMessage os_scenario 1 example_ip 3 ;; return_from_main) st
      = (Exit 0, st')
      /\ trace st'
         = trace st
           ++ sending example_ip 3 (n_listen st)
           ++ [EvReadFrom (ReadDatagram port_unreachable "93.184.216.34");
               EvPrint (OutPeer "93.184.216.34");
               EvPrint OutDestinationUnreachable; EvPrint OutDone]
           ++ map EvClose (UdpConn (n_listen st) :: deferred st)
           ++ [EvExit 0].
Proof.
  intro st.
  assert (Hs : can_send os_scenario st) by (vm_compute; auto).
  assert (Hr : next_reply icmp.ParseMessage os_scenario st
                          port_unreachable "93.184.216.34" port_unreachable_msg)
    by (vm_compute; auto).
  split; [exact Hs|]. split; [exact Hr|].
  apply (proj1 (C1_destination_unreachable_ends_the_run
                  icmp.ParseMessage os_scenario example_ip 3)
               O st port_unreachable "93.184.216.34" port_unreachable_msg).
  - unfold maxHops. lia.
  - exact Hs.
  - exact Hr.
  - reflexivity.
Defined.

(** Hop 2 of the scenario: 10.0.0.1 answers time exceeded. *)
Lemma C5_witness_scenario_hop_2 :
  let st := after_hops os_scenario 1 1 entry in
  can_send os_scenario st
  /\ next_reply icmp.ParseMessage os_scenario st
                time_exceeded "10.0.0.1" time_exceeded_msg
  /\ exists st1,
      hop icmp.ParseMessage os_scenario example_ip 2 st = (Val Next, st1)
      /\ trace st1
         = trace st
           ++ sending example_ip 2 (n_listen st)
           ++ [EvReadFrom (ReadDatagram time_exceeded "10.0.0.1");
               EvPrint (OutPeer "10.0.0.1"); EvPrint OutTimeExceeded]
      /\ loop icmp.ParseMessage os_scenario 1 example_ip 2 st
         = loop icmp.ParseMessage os_scenario 0 example_ip (2 + 1) st1
      /\ (2 + 1 <= maxHops ->
          exists tl,
            trace (snd (loop icmp.ParseMessage os_scenario 2 example_ip 2 st))
            = trace st1 ++ EvPrint (OutHop (2 + 1)) :: tl).
Proof.
  intro st.
  assert (Hs : can_send os_scenario st) by (vm_compute; auto).
  assert (Hr : next_reply icmp.ParseMessage os_scenario st
                          time_exceeded "10.0.0.1" time_exceeded_msg)
    by (vm_compute; auto).
  split; [exact Hs|]. split; [exact Hr|].
  apply (C5_time_exceeded_reports_the_hop_and_continues
           icmp.ParseMessage os_scenario example_ip O 2 st
           time_exceeded "10.0.0.1" time_exceeded_msg).
  - unfold maxHops. lia.
  - exact Hs.
  - exact Hr.
  - reflexivity.
Defined.

(** Hop 1 of the scenario: nobody answers. *)
Lemma C6_witness_scenario_hop_1 :
  can_send os_scenario entry
  /\ ReadFrom os_scenario (n_read entry) = ReadTimeout
  /\ exists st1,
      hop icmp.ParseMessage os_scenario example_ip 1 entry = (Val Next, st1)
      /\ trace st1
         = trace entry
           ++ [EvPrint (OutHop 1); EvListenUDP (Some (n_listen entry));
               EvSetTTL (n_listen entry) 1 true;
               EvWriteTo (n_listen entry) [] example_ip destPort true;
               EvSetReadDeadline (2 * Second);
               EvReadFrom ReadTimeout; EvPrint OutTimeout]
      /\ loop icmp.ParseMessage os_scenario 1 example_ip 1 entry
         = loop icmp.ParseMessage os_scenario 0 example_ip (1 + 1) st1
      /\ (1 + 1 <= maxHops ->
          exists tl,
            trace (snd (loop icmp.ParseMessage os_scenario 2 example_ip 1 entry))
            = trace st1 ++ EvPrint (OutHop (1 + 1)) :: tl).
Proof.
  assert (Hs : can_send os_scenario entry) by (vm_compute; auto).
  split; [exact Hs|]. split; [reflexivity|].
  apply (proj1 (C6_timeout_is_a_hop_outcome
                  icmp.ParseMessage os_scenario example_ip) O 1 entry).
  - unfold maxHops. lia.
  - exact Hs.
  - reflexivity.
Defined.

(** The two-byte datagram at hop 1. *)
Lemma C2_witness_garbled_hop_1 :
  can_send os_garbled entry
  /\ ReadFrom os_garbled (n_read entry) = ReadDatagram [x0b; x00] "10.0.0.1"
  /\ icmp.ParseMessage 1 (firstn 1500 [x0b; x00]) = None
  /\ exists st1,
      hop icmp.ParseMessage os_garbled example_ip 1 entry = (Val Next, st1)
      /\ trace st1
         = trace entry
           ++ sending example_ip 1 (n_listen entry)
           ++ [EvReadFrom (ReadDatagram [x0b; x00] "10.0.0.1");
               EvLog LogParseFailed]
      /\ n_read st1 = S (n_read entry)
      /\ loop icmp.ParseMessage os_garbled 1 example_ip 1 entry
         = loop icmp.ParseMessage os_garbled 0 example_ip (1 + 1) st1
      /\ (1 + 1 <= maxHops ->
          exists tl,
            trace (snd (loop icmp.ParseMessage os_garbled 2 example_ip 1 entry))
            = trace st1 ++ EvPrint (OutHop (1 + 1)) :: tl).
Proof.
  assert (Hs : can_send os_garbled entry) by (vm_compute; auto).
  assert (Hp : icmp.ParseMessage 1 (firstn 1500 [x0b; x00]) = None)
    by (vm_compute; reflexivity).
  split; [exact Hs|]. split; [reflexivity|]. split; [exact Hp|].
  apply (C2_decode_failure_moves_to_the_next_ttl
           icmp.ParseMessage os_garbled example_ip O 1 entry
           [x0b; x00] "10.0.0.1").
  - unfold maxHops. lia.
  - exact Hs.
  - reflexivity.
  - exact Hp.
Defined.

(** The second send fails. *)
Lemma C8_witness_second_send_fails :
  let st := after_hops os_send_fails 1 1 entry in
  WriteTo os_send_fails (n_write st) = false
  /\ exists st' seg m,
      (loop icmp.ParseMessage os_send_fails 1 example_ip 2 ;; return_from_main) st
      = (Exit 1, st')
      /\ trace st' = trace st ++ EvPrint (OutHop 2) :: seg ++ [EvLog m; EvExit 1]
      /\ (m = FatalSocket \/ m = FatalSetTTL \/ m = FatalSend)
      /\ sent (trace st') = sent (trace st)
      /\ receives (trace st') = receives (trace st)
      /\ n_listen st' = S (n_listen st)
      /\ (n_setttl st' <= S (n_setttl st))%nat
      /\ (n_write st' <= S (n_write st))%nat.
Proof.
  intro st.
  assert (Hw : WriteTo os_send_fails (n_write st) = false)
    by (vm_compute; reflexivity).
  split; [exact Hw|].
  apply (C8_send_side_failure_is_fatal
           icmp.ParseMessage os_send_fails example_ip O 2 st).
  - unfold maxHops. lia.
  - right. right. exact Hw.
Defined.

(** The network that never answers: thirty probes, no completion line. *)
Lemma C3_witness_silent_network :
  (forall i, ReadFrom os_silent i = ReadTimeout)
  /\ length (sent (trace (snd (program icmp.ParseMessage os_silent args init))))
     = 30%nat
  /\ ~ In (EvPrint OutDone)
          (trace (snd (program icmp.ParseMessage os_silent args init))).
Proof.
  assert (Hsilent : forall i, ReadFrom os_silent i = ReadTimeout).
  { intro i. unfold os_silent, network. simpl. now destruct i. }
  split; [exact Hsilent|]. split; [vm_compute; reflexivity|].
  apply (C3_at_most_thirty_probes icmp.ParseMessage os_silent args).
  exact Hsilent.
Defined.

(** The whole scenario: what the process prints, and its exit status. *)
Example scenario_output :
  let run := program icmp.ParseMessage os_scenario args init in
  stdout (trace (snd run))
  = ("开始 traceroute 到 example.com (93.184.216.34)" ++ newline
     ++ " 1 * * * Request timed out." ++ newline
     ++ " 2 10.0.0.1        (Time Exceeded)" ++ newline
     ++ " 3 93.184.216.34   (Destination Unreachable)" ++ newline
     ++ "Traceroute 完成!" ++ newline)%string
  /\ fst run = Exit 0
  /\ sent (trace (snd run))
     = [probe 0%nat 1 example_ip; probe 1%nat 2 example_ip; probe 2%nat 3 example_ip].
Proof. vm_compute. repeat split. Qed.

(** ** More of the program

    What the claims above leave out of [main]: the start-up, the two other
    ways through the receive, the order of the deferred closes, what
    leaves the host and when, and the commented variant. *)

Lemma exchanges_app (tr1 tr2 : list Event) :
  exchanges (tr1 ++ tr2) = exchanges tr1 ++ exchanges tr2.
Proof.
  induction tr1 as [|e tr1 IH]; simpl; [reflexivity|].
  destruct e; simpl; try apply IH; try (f_equal; apply IH).
  destruct ok; simpl; [f_equal|]; apply IH.
Qed.

Lemma closes_app (tr1 tr2 : list Event) :
  closes (tr1 ++ tr2) = closes tr1 ++ closes tr2.
Proof.
  induction tr1 as [|e tr1 IH]; simpl; [reflexivity|].
  destruct e; simpl; try apply IH. f_equal. apply IH.
Qed.

Lemma closes_map_EvClose (cs : list Conn) : closes (map EvClose cs) = cs.
Proof. induction cs as [|c cs IH]; simpl; [reflexivity|now f_equal]. Qed.

Lemma string_app_assoc (a b c : string) :
  ((a ++ b) ++ c)%string = (a ++ (b ++ c))%string.
Proof. induction a as [|x a IH]; simpl; [reflexivity|now f_equal]. Qed.

Lemma string_app_nil_r (a : string) : (a ++ "")%string = a.
Proof. induction a as [|x a IH]; simpl; [reflexivity|now f_equal]. Qed.

Lemma stdout_app (tr1 tr2 : list Event) :
  stdout (tr1 ++ tr2) = (stdout tr1 ++ stdout tr2)%string.
Proof.
  induction tr1 as [|e tr1 IH]; simpl; [reflexivity|].
  destruct e; simpl; try apply IH.
  now rewrite IH, string_app_assoc.
Qed.

#[local] Transparent make.

(** The reply buffer after a datagram was read into it. *)
Lemma buffer_after_read (dgram : list byte) :
  firstn (Nat.min (length dgram) (length (make 1500))) dgram
  ++ skipn (Nat.min (length dgram) (length (make 1500))) (make 1500)
  = pad (firstn 1500 dgram).
Proof.
  assert (Hm : length (make 1500) = 1500%nat) by apply repeat_length.
  rewrite Hm. unfold pad.
  set (n := Nat.min (length dgram) 1500).
  assert (Hf : firstn n dgram = firstn 1500 dgram).
  { unfold n. destruct (Nat.le_ge_cases (length dgram) 1500) as [H|H].
    - rewrite Nat.min_l by exact H.
      rewrite firstn_all. symmetry. now apply firstn_all2.
    - now rewrite Nat.min_r by exact H. }
  assert (Hl : length (firstn 1500 dgram) = n).
  { rewrite length_firstn. unfold n. lia. }
  rewrite Hf, Hl. f_equal.
  assert (Hs : forall a b, skipn a (repeat x00 (a + b)) = repeat x00 b).
  { intros a b. rewrite repeat_app, skipn_app, repeat_length, Nat.sub_diag.
    rewrite skipn_all2 by (rewrite repeat_length; lia).
    now rewrite skipn_O. }
  unfold make. replace 1500%nat with (n + (1500 - n))%nat at 1 by (unfold n; lia).
  apply Hs.
Qed.

#[local] Opaque make.

Section EngineMore.

Variable ParseMessage : Z -> list byte -> option Message.
Variable os : OS.

(** The oracle decides the way an iteration goes (as [one_way] above). *)
Ltac this_way Hi :=
  inversion Hi; subst; clear Hi;
  unfold can_send, next_reply in *;
  repeat match goal with
         | H : _ /\ _ |- _ => destruct H
         end;
  repeat match goal with
         | H1 : ReadFrom ?o ?i = _, H2 : ReadFrom ?o ?i = _ |- _ =>
             rewrite H1 in H2; inversion H2; subst; clear H2
         | H1 : ParseMessage 1 ?b = _, H2 : ParseMessage 1 ?b = _ |- _ =>
             rewrite H1 in H2; inversion H2; subst; clear H2
         end;
  try congruence; try reflexivity.

Lemma hop_on_read_failed destIP k st :
  can_send os st ->
  ReadFrom os (n_read st) = ReadFailed ->
  hop ParseMessage os destIP k st
  = (Val Next,
     after st
       (sending destIP k (n_listen st)
        ++ [EvReadFrom ReadFailed; EvLog LogReadFailed])
       [UdpConn (n_listen st)] 1 1 1 1).
Proof.
  intros Hs Hr. pose proof (hop_inv ParseMessage os destIP k st) as Hi.
  destruct (hop ParseMessage os destIP k st) as [r st1]. this_way Hi.
Qed.

Lemma hop_on_unknown destIP k st dgram peerAddr m :
  can_send os st ->
  next_reply ParseMessage os st dgram peerAddr m ->
  Type_ m <> ipv4.ICMPTypeTimeExceeded ->
  Type_ m <> ipv4.ICMPTypeDestinationUnreachable ->
  hop ParseMessage os destIP k st
  = (Val Next,
     after st
       (sending destIP k (n_listen st)
        ++ [EvReadFrom (ReadDatagram dgram peerAddr);
            EvPrint (OutPeer peerAddr); EvPrint (OutUnknown (Type_ m))])
       [UdpConn (n_listen st)] 1 1 1 1).
Proof.
  intros Hs Hr H11 H3.
  assert (Hk : kind_of m = Other (Type_ m)).
  { unfold kind_of.
    destruct (Z.eqb_spec (Type_ m) ipv4.ICMPTypeTimeExceeded); [contradiction|].
    now destruct (Z.eqb_spec (Type_ m) ipv4.ICMPTypeDestinationUnreachable). }
  pose proof (hop_inv ParseMessage os destIP k st) as Hi.
  destruct (hop ParseMessage os destIP k st) as [r st1]. this_way Hi.
  unfold sending. simpl. congruence.
Qed.

(** What one iteration does to the deferred closes and to the traffic. *)
Lemma hop_more (destIP : IP) (k : Z) (st : Proc) (r : Res Ctl) (st1 : Proc) :
  hop ParseMessage os destIP k st = (r, st1) ->
  reported (trace st1) = reported (trace st) ++ [k]
  /\ closes (trace st1) = closes (trace st)
  /\ match r with
     | Val c =>
         deferred st1 = UdpConn (n_listen st) :: deferred st
         /\ n_listen st1 = S (n_listen st)
         /\ exchanges (trace st1)
            = exchanges (trace st) ++ [Sent; Armed timeout; Received]
         /\ (c = Return -> exists pre, trace st1 = pre ++ [EvPrint OutDone])
     | Exit _ => exchanges (trace st1) = exchanges (trace st)
     | OutOfFuel => False
     end.
Proof.
  intro H. pose proof (hop_inv ParseMessage os destIP k st) as Hi.
  rewrite H in Hi.
  inversion Hi; subst; clear Hi; unfold after, sending;
    cbn [trace deferred n_listen];
    rewrite reported_app, closes_app, exchanges_app; simpl;
    rewrite ?app_nil_r;
    (split; [reflexivity|]); (split; [reflexivity|]);
    try reflexivity;
    (split; [reflexivity|]); (split; [reflexivity|]);
    (split; [reflexivity|]); try discriminate.
  intros _.
  exists (trace st
          ++ [EvPrint (OutHop k); EvListenUDP (Some (n_listen st));
              EvSetTTL (n_listen st) k true;
              EvWriteTo (n_listen st) [] destIP destPort true;
              EvSetReadDeadline timeout;
              EvReadFrom (ReadDatagram dgram peerAddr);
              EvPrint (OutPeer peerAddr); EvPrint OutDestinationUnreachable]).
  now rewrite <- app_assoc.
Qed.

(** An iteration that does not exit sends one datagram; one that exits
    sends none. *)
Lemma hop_sent_length (destIP : IP) (k : Z) (st : Proc) (r : Res Ctl) (st1 : Proc) :
  hop ParseMessage os destIP k st = (r, st1) ->
  length (sent (trace st1))
  = (length (sent (trace st)) + match r with Val _ => 1 | _ => 0 end)%nat.
Proof.
  intro H.
  destruct (hop_summary _ _ _ _ _ _ _ H) as (seg & op & T & _ & _ & _ & C).
  unfold sent. rewrite T, sent_from_app, length_app. f_equal.
  destruct r as [[|]|c|]; [| | |contradiction].
  - destruct C as [Hs _]. now rewrite Hs.
  - destruct C as [Hs _]. now rewrite Hs.
  - destruct C as (_ & Hs & _). now rewrite Hs.
Qed.

(** The same for the loop, entered at [k] with any fuel; [n] is the number
    of iterations started. *)
Lemma loop_more (destIP : IP) :
  forall fuel k st r st',
    loop ParseMessage os fuel destIP k st = (r, st') ->
    exists n,
      reported (trace st') = reported (trace st) ++ zrange k n
      /\ closes (trace st') = closes (trace st)
      /\ match r with
         | Val e =>
             deferred st'
             = map UdpConn (rev (seq (n_listen st) n)) ++ deferred st
             /\ exchanges (trace st')
                = exchanges (trace st)
                  ++ concat (repeat [Sent; Armed timeout; Received] n)
             /\ length (sent (trace st')) = (length (sent (trace st)) + n)%nat
             /\ (e = Exhausted -> Z.of_nat n = Z.max 0 (maxHops + 1 - k))
             /\ (e = Returned -> exists pre, trace st' = pre ++ [EvPrint OutDone])
         | Exit _ =>
             exists n0,
               n = S n0
               /\ exchanges (trace st')
                  = exchanges (trace st)
                    ++ concat (repeat [Sent; Armed timeout; Received] n0)
               /\ length (sent (trace st')) = (length (sent (trace st)) + n0)%nat
         | OutOfFuel => True
         end.
Proof.
  induction fuel as [|fuel IH]; intros k st r st' H.
  - simpl in H. inversion H; subst. exists O.
    unfold zrange. simpl. now rewrite app_nil_r.
  - destruct (Z.leb_spec k maxHops) as [Hk|Hk].
    2:{ rewrite (loop_exhausted _ _ _ _ _ _ Hk) in H. inversion H; subst.
        exists O. unfold zrange. cbn [map seq repeat concat rev app].
        rewrite !app_nil_r, Nat.add_0_r.
        repeat split; try discriminate. intros _. lia. }
    destruct (hop ParseMessage os destIP k st) as [rh st1] eqn:Hh.
    destruct (hop_more _ _ _ _ _ Hh) as (R1 & C1 & M1).
    pose proof (hop_sent_length _ _ _ _ _ Hh) as S1.
    destruct rh as [[|]|c|]; [| | |contradiction].
    + rewrite (loop_next _ _ _ _ _ _ _ Hk Hh) in H.
      destruct M1 as (D1 & L1 & E1 & _).
      destruct (IH _ _ _ _ H) as (n & R2 & C2 & M2).
      exists (S n).
      split. { now rewrite R2, R1, zrange_S, <- app_assoc. }
      split. { now rewrite C2, C1. }
      destruct r as [e|c|]; [| |exact I].
      * destruct M2 as (D2 & E2 & S2 & X2 & Y2).
        split.
        { rewrite D2, D1, L1. simpl. rewrite map_app, <- app_assoc. reflexivity. }
        split. { rewrite E2, E1, <- app_assoc. reflexivity. }
        split. { rewrite S2, S1. lia. }
        split; [|exact Y2]. intro He. specialize (X2 He). lia.
      * destruct M2 as (n0 & -> & E2 & S2). exists (S n0).
        split; [reflexivity|].
        split. { rewrite E2, E1, <- app_assoc. reflexivity. }
        rewrite S2, S1. lia.
    + rewrite (loop_return _ _ _ _ _ _ _ Hk Hh) in H. inversion H; subst.
      destruct M1 as (D1 & L1 & E1 & Y1).
      exists 1%nat.
      split. { rewrite R1. unfold zrange. simpl. now rewrite Z.add_0_r. }
      split; [exact C1|]. simpl. rewrite ?app_nil_r.
      repeat split; auto; discriminate.
    + rewrite (loop_exit _ _ _ _ _ _ _ _ Hk Hh) in H. inversion H; subst.
      exists 1%nat.
      split. { rewrite R1. unfold zrange. simpl. now rewrite Z.add_0_r. }
      split; [exact C1|]. exists O. simpl. rewrite app_nil_r.
      repeat split; auto.
Qed.

(** The four ways [main] starts, the last being the entry into the loop. *)
Lemma program_cases (args : list string) :
  ((length args < 2)%nat
   /\ program ParseMessage os args init
      = (Exit 1, mkProc [EvLog FatalUsage; EvExit 1] [] 0 0 0 0))
  \/ ((2 <= length args)%nat
      /\ ResolveIPAddr os (nth 1 args "") = None
      /\ program ParseMessage os args init
         = (Exit 1, mkProc [EvLog FatalResolve; EvExit 1] [] 0 0 0 0))
  \/ (exists destIP,
         (2 <= length args)%nat
         /\ ResolveIPAddr os (nth 1 args "") = Some destIP
         /\ icmpListenPacket os = false
         /\ program ParseMessage os args init
            = (Exit 1,
               mkProc [EvPrint (OutStart (nth 1 args "") destIP);
                       EvListenICMP false; EvLog FatalListenICMP; EvExit 1]
                      [] 0 0 0 0))
  \/ (exists destIP,
         (2 <= length args)%nat
         /\ ResolveIPAddr os (nth 1 args "") = Some destIP
         /\ icmpListenPacket os = true
         /\ program ParseMessage os args init
            = (loop ParseMessage os (S (Z.to_nat maxHops)) destIP 1 ;;
               return_from_main)
                (mkProc [EvPrint (OutStart (nth 1 args "") destIP);
                         EvListenICMP true]
                        [IcmpConn] 0 0 0 0)).
Proof.
  unfold program, main.
  destruct (Nat.ltb_spec (length args) 2) as [Hl|Hl]; [left; now split|].
  right.
  destruct (ResolveIPAddr os (nth 1 args "")) as [destIP|] eqn:Hres;
    [|left; now repeat split].
  right.
  unfold bind at 1 2 3, Print, icmp_ListenPacket, emit, init.
  cbn [trace deferred n_listen n_setttl n_write n_read app].
  destruct (icmpListenPacket os) eqn:Hi; cbn [negb].
  - right. exists destIP. repeat split; auto.
  - left. exists destIP. repeat split; auto.
Qed.

(** *** The start of [main] (main.go lines 19 to 38) *)

(** X1. [main] gives up before the loop in three cases, each with one log
    message and exit status 1: no argument (nothing is resolved, printed or
    opened), a name that does not resolve (nothing is printed or opened),
    and an ICMP connection that cannot be opened (the start line is printed,
    nothing is deferred).  Otherwise the start line, the opening of the ICMP
    connection and hop number 1 come first, in this order.  So a datagram
    only ever leaves the host after the ICMP connection was opened. *)
Theorem X1_startup_failures_are_fatal (args : list string) :
  let run := program ParseMessage os args init in
  ((length args < 2)%nat ->
   run = (Exit 1, mkProc [EvLog FatalUsage; EvExit 1] [] 0 0 0 0))
  /\ ((2 <= length args)%nat ->
      ResolveIPAddr os (nth 1 args "") = None ->
      run = (Exit 1, mkProc [EvLog FatalResolve; EvExit 1] [] 0 0 0 0))
  /\ (forall destIP,
         (2 <= length args)%nat ->
         ResolveIPAddr os (nth 1 args "") = Some destIP ->
         icmpListenPacket os = false ->
         run = (Exit 1,
                mkProc [EvPrint (OutStart (nth 1 args "") destIP);
                        EvListenICMP false; EvLog FatalListenICMP; EvExit 1]
                       [] 0 0 0 0))
  /\ (forall destIP,
         (2 <= length args)%nat ->
         ResolveIPAddr os (nth 1 args "") = Some destIP ->
         icmpListenPacket os = true ->
         exists tl,
           trace (snd run)
           = [EvPrint (OutStart (nth 1 args "") destIP); EvListenICMP true;
              EvPrint (OutHop 1)] ++ tl)
  /\ (sent (trace (snd run)) <> [] ->
      (2 <= length args)%nat
      /\ icmpListenPacket os = true
      /\ exists destIP, ResolveIPAddr os (nth 1 args "") = Some destIP).
Proof.
  intro run. unfold run.
  destruct (program_cases args)
    as [[Hl E]|[(Hl & Hres & E)|[(d & Hl & Hres & Hi & E)|(d & Hl & Hres & Hi & E)]]];
    rewrite E; clear E.
  - split; [reflexivity|]. split; [intro; lia|]. split; [intros; lia|].
    split; [intros; lia|]. intro H. now contradiction H.
  - split; [intro; lia|]. split; [reflexivity|].
    split; [intros; congruence|]. split; [intros; congruence|].
    intro H. now contradiction H.
  - split; [intro; lia|]. split; [intros; congruence|].
    split. { intros destIP _ Hd _. rewrite Hres in Hd. now inversion Hd. }
    split; [intros; congruence|]. intro H. now contradiction H.
  - split; [intro; lia|]. split; [intros; congruence|].
    split; [intros; congruence|].
    split.
    + intros destIP _ Hd _. rewrite Hres in Hd. inversion Hd; subst d.
      set (st0 := mkProc _ _ _ _ _ _).
      assert (Hk : 1 <= maxHops) by (unfold maxHops; lia).
      destruct (loop_first_event ParseMessage os destIP (Z.to_nat maxHops) 1 st0 Hk)
        as [tl Htl].
      unfold bind.
      destruct (loop ParseMessage os (S (Z.to_nat maxHops)) destIP 1 st0)
        as [[e|c|] st1]; simpl in Htl |- *; rewrite Htl; subst st0; simpl;
        eexists; reflexivity.
    + intros _. split; [exact Hl|]. split; [exact Hi|]. now exists d.
Qed.

(** *** The other ways through the receive (main.go lines 80 to 107) *)

(** X2. For every TTL k: when the receive fails with an error that is not a
    timeout, the error is logged, nothing but the hop number is printed,
    the process does not exit, and the loop goes on with TTL k+1. *)
Theorem X2_read_error_is_logged_and_skipped
        (destIP : IP) (fuel : nat) (k : Z) (st : Proc) :
  k <= maxHops ->
  can_send os st ->
  ReadFrom os (n_read st) = ReadFailed ->
  exists st1,
    hop ParseMessage os destIP k st = (Val Next, st1)
    /\ trace st1
       = trace st
         ++ sending destIP k (n_listen st)
         ++ [EvReadFrom ReadFailed; EvLog LogReadFailed]
    /\ loop ParseMessage os (S fuel) destIP k st
       = loop ParseMessage os fuel destIP (k + 1) st1
    /\ (k + 1 <= maxHops ->
        exists tl,
          trace (snd (loop ParseMessage os (S (S fuel)) destIP k st))
          = trace st1 ++ EvPrint (OutHop (k + 1)) :: tl).
Proof.
  intros Hk Hs Hr.
  pose proof (hop_on_read_failed destIP k st Hs Hr) as Hh.
  eexists. split; [exact Hh|]. split; [reflexivity|].
  split; [now apply loop_next|]. now apply next_hop_follows.
Qed.

(** X3. For every TTL k: when the reply decodes to a type that is neither
    time exceeded nor destination unreachable, the engine prints hop k with
    the address of the responder and the number of the type, does not end
    the run, and goes on with TTL k+1. *)
Theorem X3_other_type_is_reported_and_skipped
        (destIP : IP) (fuel : nat) (k : Z) (st : Proc)
        (dgram : list byte) (peerAddr : string) (m : Message) :
  k <= maxHops ->
  can_send os st ->
  next_reply ParseMessage os st dgram peerAddr m ->
  Type_ m <> ipv4.ICMPTypeTimeExceeded ->
  Type_ m <> ipv4.ICMPTypeDestinationUnreachable ->
  exists st1,
    hop ParseMessage os destIP k st = (Val Next, st1)
    /\ trace st1
       = trace st
         ++ sending destIP k (n_listen st)
         ++ [EvReadFrom (ReadDatagram dgram peerAddr);
             EvPrint (OutPeer peerAddr); EvPrint (OutUnknown (Type_ m))]
    /\ loop ParseMessage os (S fuel) destIP k st
       = loop ParseMessage os fuel destIP (k + 1) st1
    /\ (k + 1 <= maxHops ->
        exists tl,
          trace (snd (loop ParseMessage os (S (S fuel)) destIP k st))
          = trace st1 ++ EvPrint (OutHop (k + 1)) :: tl).
Proof.
  intros Hk Hs Hr H11 H3.
  pose proof (hop_on_unknown destIP k st _ _ _ Hs Hr H11 H3) as Hh.
  eexists. split; [exact Hh|]. split; [reflexivity|].
  split; [now apply loop_next|]. now apply next_hop_follows.
Qed.

(** X4. For every TTL k: when the receive fails with an error that is not a
    timeout, or the bytes received do not decode, standard output gets the
    hop number and its space and nothing else, not even a line end (the
    message goes to the log); when there is a next hop, its number follows
    on the same output line. *)
Theorem X4_failed_receive_leaves_the_line_open
        (destIP : IP) (fuel : nat) (k : Z) (st : Proc) :
  k <= maxHops ->
  can_send os st ->
  ReadFrom os (n_read st) = ReadFailed
  \/ (exists dgram peerAddr,
         ReadFrom os (n_read st) = ReadDatagram dgram peerAddr
         /\ ParseMessage 1 (firstn 1500 dgram) = None) ->
  stdout (trace (snd (hop ParseMessage os destIP k st)))
  = (stdout (trace st) ++ pad_left 2 (itoa k) ++ " ")%string
  /\ (k + 1 <= maxHops ->
      exists rest,
        stdout (trace (snd (loop ParseMessage os (S (S fuel)) destIP k st)))
        = (stdout (trace st) ++ pad_left 2 (itoa k) ++ " "
           ++ pad_left 2 (itoa (k + 1)) ++ " " ++ rest)%string).
Proof.
  intros Hk Hs Hfail.
  assert (Hh : exists st1,
             hop ParseMessage os destIP k st = (Val Next, st1)
             /\ stdout (trace st1)
                = (stdout (trace st) ++ pad_left 2 (itoa k) ++ " ")%string).
  { destruct Hfail as [Hr|(dgram & peerAddr & Hr & Hp)].
    - rewrite (hop_on_read_failed destIP k st Hs Hr). eexists.
      split; [reflexivity|]. unfold after, sending. cbn [trace].
      rewrite stdout_app. cbn [stdout app render].
      now rewrite string_app_nil_r.
    - rewrite (hop_on_undecoded ParseMessage os destIP k st _ _ Hs Hr Hp).
      eexists. split; [reflexivity|]. unfold after, sending. cbn [trace].
      rewrite stdout_app. cbn [stdout app render].
      now rewrite string_app_nil_r. }
  destruct Hh as (st1 & Hh & Hout). rewrite Hh. cbn [snd].
  split; [exact Hout|]. intro Hk1.
  destruct (next_hop_follows ParseMessage os destIP fuel k st st1 Hk Hh Hk1)
    as [tl Htl].
  exists (stdout tl). rewrite Htl, stdout_app. cbn [stdout render].
  rewrite Hout. now rewrite !string_app_assoc.
Qed.

(** *** What the engine reads of a reply (main.go lines 90 to 107) *)

(** Two decoders that agree, on the replies the network delivers, on
    whether the bytes decode and on the type, drive the same run. *)
Lemma hop_ext (PM1 PM2 : Z -> list byte -> option Message)
      (destIP : IP) (k : Z) (st : Proc) :
  (forall dgram peerAddr,
      ReadFrom os (n_read st) = ReadDatagram dgram peerAddr ->
      option_map Type_ (PM1 1 (firstn 1500 dgram))
      = option_map Type_ (PM2 1 (firstn 1500 dgram))) ->
  hop PM1 os destIP k st = hop PM2 os destIP k st.
Proof.
  intro Hag.
  unfold hop, bind, Print, net_ListenPacket, p_SetTTL, p_WriteTo, defer,
    SetReadDeadline, icmpConn_ReadFrom, Logf, Fatalf, ret, emit. simpl.
  destruct (udpListenPacket os (n_listen st)); simpl; [|reflexivity].
  destruct (SetTTL os (n_setttl st)); simpl; [|reflexivity].
  destruct (WriteTo os (n_write st)); simpl; [|reflexivity].
  destruct (ReadFrom os (n_read st)) as [| |dgram peerAddr];
    simpl; try reflexivity.
  rewrite received_slice. specialize (Hag dgram peerAddr eq_refl).
  destruct (PM1 1 (firstn 1500 dgram)) as [m1|],
           (PM2 1 (firstn 1500 dgram)) as [m2|];
    simpl in Hag; try discriminate; [|reflexivity].
  inversion Hag as [Ht]. now rewrite Ht.
Qed.

Lemma loop_ext (PM1 PM2 : Z -> list byte -> option Message) (destIP : IP) :
  (forall i dgram peerAddr,
      ReadFrom os i = ReadDatagram dgram peerAddr ->
      option_map Type_ (PM1 1 (firstn 1500 dgram))
      = option_map Type_ (PM2 1 (firstn 1500 dgram))) ->
  forall fuel k st, loop PM1 os fuel destIP k st = loop PM2 os fuel destIP k st.
Proof.
  intro Hag. induction fuel as [|fuel IH]; intros k st; simpl; [reflexivity|].
  destruct (k <=? maxHops); [|reflexivity].
  unfold bind. rewrite (hop_ext PM1 PM2) by (intros; eapply Hag; eauto).
  destruct (hop PM2 os destIP k st) as [[[|]|c|] st1]; auto.
Qed.

Lemma program_ext (PM1 PM2 : Z -> list byte -> option Message)
      (args : list string) (st : Proc) :
  (forall i dgram peerAddr,
      ReadFrom os i = ReadDatagram dgram peerAddr ->
      option_map Type_ (PM1 1 (firstn 1500 dgram))
      = option_map Type_ (PM2 1 (firstn 1500 dgram))) ->
  program PM1 os args st = program PM2 os args st.
Proof.
  intro Hag. unfold program, main.
  destruct (length args <? 2)%nat; [reflexivity|].
  destruct (ResolveIPAddr os (nth 1 args "")) as [destIP|]; [|reflexivity].
  unfold bind, Print, icmp_ListenPacket, defer, emit.
  destruct (icmpListenPacket os); cbn [negb]; [|reflexivity].
  now rewrite (loop_ext PM1 PM2 destIP Hag).
Qed.

(** X5. Of a decoded reply the engine reads the type and nothing else: a
    run is the same when the decoder is replaced by one that forgets the
    code, the checksum and the body of every message.  (So a destination
    unreachable reply ends the run whatever its code.) *)
Theorem X5_only_the_type_of_a_reply_matters (args : list string) (st : Proc) :
  program ParseMessage os args st = program (type_only ParseMessage) os args st.
Proof.
  apply program_ext. intros i dgram peerAddr _. unfold type_only.
  now destruct (ParseMessage 1 (firstn 1500 dgram)).
Qed.

(** *** Whole runs: closing, traffic, exit status (main.go lines 38 to 109) *)

(** A run either stops before the loop, having closed, sent, received and
    printed no hop, or is the loop entered at TTL 1 followed, when the loop
    does not exit, by the return from [main]. *)
Lemma program_run (args : list string) :
  (exists tr,
      program ParseMessage os args init = (Exit 1, mkProc tr [] 0 0 0 0)
      /\ closes tr = [] /\ exchanges tr = [] /\ sent tr = []
      /\ reported tr = [] /\ ~ In (EvPrint OutDone) tr)
  \/ (exists destIP rl stl,
         let st0 := mkProc [EvPrint (OutStart (nth 1 args "") destIP);
                            EvListenICMP true]
                           [IcmpConn] 0 0 0 0 in
         loop ParseMessage os (S (Z.to_nat maxHops)) destIP 1 st0 = (rl, stl)
         /\ (rl = Val Returned \/ rl = Val Exhausted \/ rl = Exit 1)
         /\ program ParseMessage os args init
            = match rl with
              | Val _ => return_from_main stl
              | Exit c => (Exit c, stl)
              | OutOfFuel => (OutOfFuel, stl)
              end).
Proof.
  destruct (program_cases args)
    as [[Hl E]|[(Hl & Hres & E)|[(d & Hl & Hres & Hi & E)|(d & Hl & Hres & Hi & E)]]].
  - left. eexists. split; [exact E|]. simpl.
    repeat split; auto. intuition discriminate.
  - left. eexists. split; [exact E|]. simpl.
    repeat split; auto. intuition discriminate.
  - left. eexists. split; [exact E|]. simpl.
    repeat split; auto. intuition discriminate.
  - right. exists d.
    destruct (loop ParseMessage os (S (Z.to_nat maxHops)) d 1
                   (mkProc [EvPrint (OutStart (nth 1 args "") d); EvListenICMP true]
                           [IcmpConn] 0 0 0 0)) as [rl stl] eqn:Hl'.
    exists rl, stl. cbv zeta. split; [exact Hl'|].
    split.
    + destruct (loop_spec _ _ _ _ _ _ _ _ Hl')
        as (_ & _ & _ & _ & _ & _ & _ & _ & _ & _ & _ & _ & Htot).
      apply Htot. unfold maxHops. simpl. lia.
    + rewrite E. unfold bind. rewrite Hl'. now destruct rl.
Qed.

(** X6. The deferred closes run when [main] returns and only then.  A run
    that ends with status 0 closes, after everything else and just before
    it exits, the sending sockets of all the hops it reported, the last
    opened first, and then the ICMP connection; nothing is left deferred.
    A run that ends with status 1 closes nothing. *)
Theorem X6_connections_are_closed_on_return_only (args : list string) :
  let run := program ParseMessage os args init in
  (fst run = Exit 0 ->
   closes (trace (snd run))
   = map UdpConn (rev (seq 0 (length (reported (trace (snd run))))))
     ++ [IcmpConn]
   /\ (exists pre,
          trace (snd run)
          = pre ++ map EvClose (closes (trace (snd run))) ++ [EvExit 0]
          /\ closes pre = [])
   /\ deferred (snd run) = [])
  /\ (fst run = Exit 1 -> closes (trace (snd run)) = []).
Proof.
  intro run. unfold run.
  destruct (program_run args)
    as [(tr & E & Hc & _)|(d & rl & stl & Hl & Hrl & E)]; rewrite E.
  - simpl. split; [discriminate|]. intros _. exact Hc.
  - cbv zeta in Hl.
    destruct (loop_more _ _ _ _ _ _ Hl) as (n & R & C & M).
    cbn [trace n_listen deferred reported closes app] in R, C, M.
    destruct rl as [e|c|].
    + destruct M as (D & _). unfold return_from_main. cbn [fst snd trace deferred].
      split; [|discriminate]. intros _.
      destruct (closing_is_silent (deferred stl) 0) as (Hrep & _ & _).
      assert (Hcl : closes (trace stl ++ map EvClose (deferred stl) ++ [EvExit 0])
                    = deferred stl).
      { rewrite !closes_app, C, closes_map_EvClose. simpl. now rewrite app_nil_r. }
      rewrite Hcl, reported_app, Hrep, app_nil_r, R, zrange_length.
      split; [exact D|]. split; [|reflexivity].
      exists (trace stl). split; [reflexivity|exact C].
    + destruct Hrl as [H|[H|H]]; try discriminate. inversion H; subst c.
      cbn [fst snd]. split; [discriminate|]. intros _. exact C.
    + destruct Hrl as [H|[H|H]]; discriminate.
Qed.

(** X7. One probe at a time.  In every run the traffic is a repetition of
    the same three steps: a datagram is sent, the read deadline is set to
    two seconds from now, one receive is made; there are as many rounds as
    datagrams sent.  No datagram is sent while another awaits its receive,
    and no receive is made without a datagram before it. *)
Theorem X7_one_probe_at_a_time (args : list string) :
  let tr := trace (snd (program ParseMessage os args init)) in
  exchanges tr
  = concat (repeat [Sent; Armed (2 * Second); Received] (length (sent tr))).
Proof.
  intro tr. unfold tr.
  destruct (program_run args)
    as [(tr0 & E & _ & Hx & Hs & _)|(d & rl & stl & Hl & Hrl & E)]; rewrite E.
  - simpl. now rewrite Hx, Hs.
  - cbv zeta in Hl.
    destruct (loop_more _ _ _ _ _ _ Hl) as (n & _ & _ & M).
    cbn [trace exchanges app] in M. unfold sent in M. cbn [sent_from length] in M.
    assert (Hclose : forall cs, exchanges (map EvClose cs ++ [EvExit 0]) = []
                                /\ forall o, sent_from o (map EvClose cs ++ [EvExit 0]) = []).
    { induction cs as [|c cs [IH1 IH2]]; simpl; auto. }
    destruct rl as [e|c|].
    + destruct M as (_ & X & S & _). unfold return_from_main. cbn [snd trace].
      destruct (Hclose (deferred stl)) as [H1 H2].
      unfold sent. rewrite exchanges_app, sent_from_app, length_app, H1, H2, app_nil_r.
      simpl. rewrite Nat.add_0_r. now rewrite X, S.
    + destruct M as (n0 & _ & X & S). cbn [snd]. unfold sent. now rewrite X, S.
    + destruct Hrl as [H|[H|H]]; discriminate.
Qed.

(** X8. Exit status 0 does not tell a route that was found from one that was
    not.  A run that ends with status 0 either printed the completion line,
    as the last thing before the closes, or went through all thirty hops,
    one datagram each, without it. *)
Theorem X8_status_zero_is_success_or_ceiling (args : list string) :
  let run := program ParseMessage os args init in
  fst run = Exit 0 ->
  (exists pre cs,
      trace (snd run) = pre ++ EvPrint OutDone :: map EvClose cs ++ [EvExit 0])
  \/ (~ In (EvPrint OutDone) (trace (snd run))
      /\ reported (trace (snd run)) = zrange 1 30
      /\ length (sent (trace (snd run))) = 30%nat).
Proof.
  intro run. unfold run.
  destruct (program_run args)
    as [(tr0 & E & _)|(d & rl & stl & Hl & Hrl & E)]; rewrite E.
  - discriminate.
  - cbv zeta in Hl.
    destruct (loop_more _ _ _ _ _ _ Hl) as (n & R & _ & M).
    destruct (loop_spec _ _ _ _ _ _ _ _ Hl)
      as (seg & _ & _ & _ & T & _ & _ & _ & _ & _ & F & _).
    cbn [trace reported app] in R, M, T. unfold sent in M.
    cbn [sent_from length] in M.
    destruct (closing_is_silent (deferred stl) 0) as (Hrep & Hsent & Hdone).
    destruct rl as [[|]|c|].
    + (* returned *)
      intros _. left. destruct M as (_ & _ & _ & _ & Y).
      destruct (Y eq_refl) as [pre Hpre].
      exists pre, (deferred stl). unfold return_from_main. cbn [snd trace].
      now rewrite Hpre, <- app_assoc.
    + (* the loop ran out of hops *)
      intros _. right. destruct M as (_ & _ & S & X & _).
      specialize (X eq_refl).
      assert (Hn : n = 30%nat) by (unfold maxHops in X; lia). subst n.
      unfold return_from_main. cbn [snd trace].
      split.
      { intro Hin. apply in_app_or in Hin. destruct Hin as [Hin|Hin];
          [|contradiction].
        rewrite T in Hin. simpl in Hin.
        destruct Hin as [Hin|[Hin|Hin]]; try discriminate.
        specialize (F Hin). discriminate. }
      split. { now rewrite reported_app, Hrep, app_nil_r. }
      unfold sent. rewrite sent_from_app, length_app, Hsent. simpl.
      unfold sent in S. rewrite S. lia.
    + destruct Hrl as [H|[H|H]]; try discriminate. inversion H; subst c.
      discriminate.
    + destruct Hrl as [H|[H|H]]; discriminate.
Qed.

(** X9. The hop numbers line up: every hop number a run prints takes
    three characters on standard output, the number right-aligned in two
    and a space. *)
Theorem X9_hop_numbers_take_three_columns (args : list string) (k : Z) :
  In k (reported (trace (snd (program ParseMessage os args init)))) ->
  String.length (render (OutHop k)) = 3%nat.
Proof.
  destruct (program ParseMessage os args init) as [r st] eqn:Hrun. cbn [snd].
  destruct (program_spec ParseMessage os args r st Hrun)
    as (n & _ & _ & _ & Hn & Hrep & _).
  rewrite Hrep. unfold zrange. intro Hin. apply in_map_iff in Hin.
  destruct Hin as (j & <- & Hj). apply in_seq in Hj.
  assert (Hlt : (j < 30)%nat) by lia. clear - Hlt.
  do 30 (destruct j as [|j]; [vm_compute; reflexivity|]). lia.
Qed.

(** *** The commented variant (src/unnamed/part_000) *)

Lemma student_hop_on_buffer (destIP : IP) (k : Z) (st : Proc) :
  student_hop ParseMessage os destIP k st
  = hop (on_buffer ParseMessage) os destIP k st.
Proof.
  unfold student_hop, hop, bind, Print, net_ListenPacket, p_SetTTL, p_WriteTo,
    defer, SetReadDeadline, icmpConn_ReadFrom, Logf, Fatalf, ret, emit. simpl.
  destruct (udpListenPacket os (n_listen st)); simpl; [|reflexivity].
  destruct (SetTTL os (n_setttl st)); simpl; [|reflexivity].
  destruct (WriteTo os (n_write st)); simpl; [|reflexivity].
  destruct (ReadFrom os (n_read st)) as [| |dgram peerAddr];
    simpl; try reflexivity.
  unfold on_buffer. now rewrite received_slice, buffer_after_read.
Qed.

Lemma student_loop_on_buffer (destIP : IP) :
  forall fuel k st,
    student_loop ParseMessage os fuel destIP k st
    = loop (on_buffer ParseMessage) os fuel destIP k st.
Proof.
  induction fuel as [|fuel IH]; intros k st; simpl; [reflexivity|].
  destruct (k <=? maxHops); [|reflexivity].
  unfold bind. rewrite student_hop_on_buffer.
  destruct (hop (on_buffer ParseMessage) os destIP k st) as [[[|]|c|] st1]; auto.
Qed.

Lemma student_program_on_buffer (args : list string) (st : Proc) :
  student_program ParseMessage os args st
  = program (on_buffer ParseMessage) os args st.
Proof.
  unfold student_program, student_main, program, main.
  destruct (length args <? 2)%nat; [reflexivity|].
  destruct (ResolveIPAddr os (nth 1 args "")) as [destIP|]; [|reflexivity].
  unfold bind, Print, icmp_ListenPacket, defer, emit.
  destruct (icmpListenPacket os); cbn [negb]; [|reflexivity].
  now rewrite student_loop_on_buffer.
Qed.



(** X12. The variant probes as [main.go] does: in every run the hop numbers
    printed are 1, ..., n with n at most 30, the j-th datagram sent is
    empty, goes to port 33434 of the resolved address with hop limit j+1
    on the j-th socket, and only an exit with status 1 leaves the last hop
    number printed without its datagram. *)
Theorem X12_variant_probes_like_main (args : list string) :
  let run := student_program ParseMessage os args init in
  (fst run = Exit 0 \/ fst run = Exit 1)
  /\ exists n n' destIP,
      (n <= 30)%nat
      /\ reported (trace (snd run)) = zrange 1 n
      /\ (n' = n \/ S n' = n /\ fst run = Exit 1)
      /\ (n' = O \/ ResolveIPAddr os (nth 1 args "") = Some destIP)
      /\ sent (trace (snd run))
         = map (fun j => mkDatagram j (Some (1 + Z.of_nat j)) destIP 33434 [])
               (seq 0 n').
Proof.
  intro run. unfold run. rewrite student_program_on_buffer.
  destruct (program (on_buffer ParseMessage) os args init) as [r st] eqn:Hrun.
  destruct (program_spec (on_buffer ParseMessage) os args r st Hrun)
    as (n & n' & destIP & Hr & Hn & Hrep & Hnn & Hsent & Hres & _).
  cbn [fst snd]. split; [exact Hr|].
  exists n, n', destIP. repeat split; auto.
Qed.

End EngineMore.

(** ** The further properties on concrete runs *)

(** No argument; a name that does not resolve; no ICMP connection. *)
Lemma X1_witness_three_startup_failures :
  program icmp.ParseMessage os_scenario ["traceroute"] init
  = (Exit 1, mkProc [EvLog FatalUsage; EvExit 1] [] 0 0 0 0)
  /\ program icmp.ParseMessage os_unresolved args init
     = (Exit 1, mkProc [EvLog FatalResolve; EvExit 1] [] 0 0 0 0)
  /\ program icmp.ParseMessage os_no_icmp args init
     = (Exit 1,
        mkProc [EvPrint (OutStart "example.com" example_ip);
                EvListenICMP false; EvLog FatalListenICMP; EvExit 1]
               [] 0 0 0 0).
Proof.
  split; [|split].
  - apply (proj1 (X1_startup_failures_are_fatal
                    icmp.ParseMessage os_scenario ["traceroute"])).
    simpl. lia.
  - apply (proj1 (proj2 (X1_startup_failures_are_fatal
                           icmp.ParseMessage os_unresolved args))).
    + simpl. lia.
    + reflexivity.
  - apply (proj1 (proj2 (proj2 (X1_startup_failures_are_fatal
                                  icmp.ParseMessage os_no_icmp args)))
             example_ip).
    + simpl. lia.
    + reflexivity.
    + reflexivity.
Defined.

(** The first receive fails. *)
Lemma X2_witness_read_error_at_hop_1 :
  can_send os_read_error entry
  /\ ReadFrom os_read_error (n_read entry) = ReadFailed
  /\ exists st1,
      hop icmp.ParseMessage os_read_error example_ip 1 entry = (Val Next, st1)
      /\ trace st1
         = trace entry
           ++ sending example_ip 1 (n_listen entry)
           ++ [EvReadFrom ReadFailed; EvLog LogReadFailed]
      /\ loop icmp.ParseMessage os_read_error 1 example_ip 1 entry
         = loop icmp.ParseMessage os_read_error 0 example_ip (1 + 1) st1
      /\ (1 + 1 <= maxHops ->
          exists tl,
            trace (snd (loop icmp.ParseMessage os_read_error 2 example_ip 1 entry))
            = trace st1 ++ EvPrint (OutHop (1 + 1)) :: tl).
Proof.
  assert (Hs : can_send os_read_error entry) by (vm_compute; auto).
  split; [exact Hs|]. split; [reflexivity|].
  apply (X2_read_error_is_logged_and_skipped
           icmp.ParseMessage os_read_error example_ip O 1 entry).
  - unfold maxHops. lia.
  - exact Hs.
  - reflexivity.
Defined.

(** The first answer is a redirect. *)
Lemma X3_witness_redirect_at_hop_1 :
  can_send os_redirect entry
  /\ next_reply icmp.ParseMessage os_redirect entry redirect "10.0.0.1" redirect_msg
  /\ exists st1,
      hop icmp.ParseMessage os_redirect example_ip 1 entry = (Val Next, st1)
      /\ trace st1
         = trace entry
           ++ sending example_ip 1 (n_listen entry)
           ++ [EvReadFrom (ReadDatagram redirect "10.0.0.1");
               EvPrint (OutPeer "10.0.0.1");
               EvPrint (OutUnknown (Type_ redirect_msg))]
      /\ loop icmp.ParseMessage os_redirect 1 example_ip 1 entry
         = loop icmp.ParseMessage os_redirect 0 example_ip (1 + 1) st1
      /\ (1 + 1 <= maxHops ->
          exists tl,
            trace (snd (loop icmp.ParseMessage os_redirect 2 example_ip 1 entry))
            = trace st1 ++ EvPrint (OutHop (1 + 1)) :: tl).
Proof.
  assert (Hs : can_send os_redirect entry) by (vm_compute; auto).
  assert (Hr : next_reply icmp.ParseMessage os_redirect entry
                          redirect "10.0.0.1" redirect_msg)
    by (vm_compute; auto).
  split; [exact Hs|]. split; [exact Hr|].
  apply (X3_other_type_is_reported_and_skipped
           icmp.ParseMessage os_redirect example_ip O 1 entry
           redirect "10.0.0.1" redirect_msg).
  - unfold maxHops. lia.
  - exact Hs.
  - exact Hr.
  - discriminate.
  - discriminate.
Defined.

(** The two-byte datagram at hop 1 again: hop numbers 1 and 2 share a line. *)
Lemma X4_witness_garbled_hop_1 :
  can_send os_garbled entry
  /\ stdout (trace (snd (hop icmp.ParseMessage os_garbled example_ip 1 entry)))
     = (stdout (trace entry) ++ " 1 ")%string
  /\ exists rest,
      stdout (trace (snd (loop icmp.ParseMessage os_garbled 2 example_ip 1 entry)))
      = (stdout (trace entry) ++ " 1 " ++ " 2 " ++ rest)%string.
Proof.
  assert (Hs : can_send os_garbled entry) by (vm_compute; auto).
  assert (Hk : 1 <= maxHops) by (unfold maxHops; lia).
  assert (Hf : ReadFrom os_garbled (n_read entry) = ReadFailed
               \/ (exists dgram peerAddr,
                      ReadFrom os_garbled (n_read entry) = ReadDatagram dgram peerAddr
                      /\ icmp.ParseMessage 1 (firstn 1500 dgram) = None)).
  { right. exists [x0b; x00], "10.0.0.1". split; vm_compute; reflexivity. }
  destruct (X4_failed_receive_leaves_the_line_open
              icmp.ParseMessage os_garbled example_ip O 1 entry Hk Hs Hf)
    as [H1 H2].
  split; [exact Hs|]. split; [exact H1|].
  apply H2. unfold maxHops. lia.
Defined.

(** The scenario ends with status 0: its three sockets are closed, the last
    first, then the ICMP connection. *)
Lemma X6_witness_scenario_closes :
  fst (program icmp.ParseMessage os_scenario args init) = Exit 0
  /\ closes (trace (snd (program icmp.ParseMessage os_scenario args init)))
     = [UdpConn 2%nat; UdpConn 1%nat; UdpConn 0%nat; IcmpConn].
Proof.
  assert (He : fst (program icmp.ParseMessage os_scenario args init) = Exit 0)
    by (vm_compute; reflexivity).
  split; [exact He|].
  destruct (proj1 (X6_connections_are_closed_on_return_only
                     icmp.ParseMessage os_scenario args) He) as (Hc & _).
  rewrite Hc. vm_compute. reflexivity.
Defined.

(** The network that never answers: status 0 at the ceiling. *)
Lemma X8_witness_silent_network :
  fst (program icmp.ParseMessage os_silent args init) = Exit 0
  /\ ((exists pre cs,
          trace (snd (program icmp.ParseMessage os_silent args init))
          = pre ++ EvPrint OutDone :: map EvClose cs ++ [EvExit 0])
      \/ (~ In (EvPrint OutDone)
               (trace (snd (program icmp.ParseMessage os_silent args init)))
          /\ reported (trace (snd (program icmp.ParseMessage os_silent args init)))
             = zrange 1 30
          /\ length (sent (trace (snd (program icmp.ParseMessage os_silent args init))))
             = 30%nat)).
Proof.
  assert (He : fst (program icmp.ParseMessage os_silent args init) = Exit 0)
    by (vm_compute; reflexivity).
  split; [exact He|].
  exact (X8_status_zero_is_success_or_ceiling
           icmp.ParseMessage os_silent args He).
Defined.

(** Hop number 2 of the scenario. *)
Lemma X9_witness_scenario_hop_2 :
  In 2 (reported (trace (snd (program icmp.ParseMessage os_scenario args init))))
  /\ String.length (render (OutHop 2)) = 3%nat.
Proof.
  assert (Hin : In 2 (reported (trace (snd (program icmp.ParseMessage
                                               os_scenario args init))))).
  { vm_compute. right. left. reflexivity. }
  split; [exact Hin|].
  exact (X9_hop_numbers_take_three_columns
           icmp.ParseMessage os_scenario args 2 Hin).
Defined.

